(** * Recipe catalogue service (main.py): a shallow embedding

    The service maps five HTTP routes onto five SQL statements over one
    SQLite table.  The embedding follows the layers of the program:

    - the values that travel through it (decoded JSON, SQLite column values),
    - the [recipes] table with its AUTOINCREMENT key, and the statements
      the program executes on it,
    - the request schema [RecipeCreate] and its validation,
    - the five route handlers and the translation of raised exceptions
      into HTTP responses,
    - runs of the service from [init_db] on.

    What the program leaves to its libraries is modelled as the libraries
    do it: SQLite stores INTEGER in 64 bits and the sqlite3 module refuses
    to bind a larger Python int; an AUTOINCREMENT key is one more than the
    largest rowid the table ever held; a request body is validated before
    the route function runs, in the validator's default mode, which
    converts what it can and ignores members the model does not declare;
    the framework decodes the body and converts the path parameter before
    that, and answers by itself when either fails.

    The process clock is an input of every request: a handler receives the
    reading [datetime.datetime.now()] would give. *)

From Stdlib Require Import ZArith List String Ascii Bool Lia ZifyNat Sorted.
From Stdlib Require Import DecimalString.
From Stdlib Require DecimalFacts DecimalPos DecimalZ.
Import ListNotations.
Local Open Scope Z_scope.
Set Warnings "-register-all".

(** ** Values *)

(** A Python float, as [json.loads] gives it for a number written with a
    fraction or an exponent, and for the literals NaN, Infinity and
    -Infinity, which it takes too.  A finite float is
    [mantissa * 2 ^ exponent]. *)
Inductive pyfloat : Type :=
| Finite (mantissa exponent : Z)
| Infinite (negative : bool)
| NaN.

(** A JSON document, and what a response is serialised from.  An object
    keeps its members in document order; an integer literal may have any
    number of digits.  Text is held as its UTF-8 bytes. *)
Inductive json : Type :=
| JNull
| JBool (b : bool)
| JInt (z : Z)
| JFloat (f : pyfloat)
| JStr (s : string)
| JArr (items : list json)
| JObj (members : list (string * json)).

(** [d.get(k)] on the dict decoded from an object: when a key is repeated
    in the document, the last member wins. *)
Fixpoint dict_get (k : string) (members : list (string * json)) : option json :=
  match members with
  | [] => None
  | (k', v) :: rest =>
      match dict_get k rest with
      | Some v' => Some v'
      | None => if (k' =? k)%string then Some v else None
      end
  end.

(** A value stored in a SQLite column. *)
Inductive sqlval : Type :=
| SqlNull
| SqlInt (z : Z)
| SqlText (s : string).

Definition is_null (v : sqlval) : bool :=
  match v with SqlNull => true | _ => false end.

(** SQLite INTEGER is a signed 64-bit integer. *)
Definition INT64_MIN : Z := - 2 ^ 63.
Definition INT64_MAX : Z := 2 ^ 63 - 1.

Definition in_int64 (z : Z) : bool := (INT64_MIN <=? z) && (z <=? INT64_MAX).

(** What a Python value of the sqlite3 module turns into on the way back
    to the caller. *)
Definition json_of_sqlval (v : sqlval) : json :=
  match v with
  | SqlNull => JNull
  | SqlInt z => JInt z
  | SqlText s => JStr s
  end.

(** ** Exceptions and the result of a computation that may raise *)

Inductive exn : Type :=
| RequestValidationError (errors : list (string * string))
| HTTPException (status_code : Z) (detail : string)
| OverflowError      (* Python int too large to convert to SQLite INTEGER *)
| UnicodeEncodeError (* a str that has no UTF-8 encoding *)
| IntegrityError     (* a NOT NULL or UNIQUE constraint failed *)
| OperationalError.  (* no such table; database or disk is full *)

Inductive result (A : Type) : Type :=
| Ok (a : A)
| Raise (e : exn).
Arguments Ok {A} a.
Arguments Raise {A} e.

Definition bind {A B : Type} (m : result A) (f : A -> result B) : result B :=
  match m with
  | Ok a => f a
  | Raise e => Raise e
  end.

Notation "x <- m ;; k" := (bind m (fun x => k))
  (at level 61, m at next level, right associativity).

(** ** The [recipes] table *)

Module Recipe.
Record t : Type := mk {
  id : Z;
  title : sqlval;
  making_time : sqlval;
  serves : sqlval;
  ingredients : sqlval;
  cost : sqlval;
  created_at : sqlval;
  updated_at : sqlval
}.
End Recipe.

(** The table with its entry in [sqlite_sequence], the largest rowid the
    table ever held; SQLite keeps the entry for as long as the table
    exists. *)
Record storage : Type := mk_storage {
  table_rows : list Recipe.t;
  table_sequence : Z
}.

(** The database file: it holds the table or it does not. *)
Definition db : Type := option storage.

Definition mk_db (t : list Recipe.t) (n : Z) : db := Some (mk_storage t n).

Definition recipes (st : db) : option (list Recipe.t) := option_map table_rows st.

Definition sqlite_sequence (st : db) : Z :=
  match st with
  | Some s => table_sequence s
  | None => 0
  end.

(** Binding a Python int as a statement parameter. *)
Definition bind_int (z : Z) : result sqlval :=
  if in_int64 z then Ok (SqlInt z) else Raise OverflowError.

(** A Python str may hold a lone surrogate ([json.loads] yields one for
    an escape such as \ud800 that has no partner).  Such a code point has no
    UTF-8 encoding; it is held here as the three bytes ED A0..BF 80..BF of
    the generalised encoding, which UTF-8 never produces. *)
Fixpoint has_surrogate (s : string) : bool :=
  match s with
  | String c1 (String c2 _ as rest) =>
      ((nat_of_ascii c1 =? 237)%nat
       && (160 <=? nat_of_ascii c2)%nat && (nat_of_ascii c2 <=? 191)%nat)
      || has_surrogate rest
  | _ => false
  end.

(** Binding a Python str as a statement parameter: the text is encoded as
    UTF-8, which fails on a lone surrogate. *)
Definition bind_str (s : string) : result sqlval :=
  if has_surrogate s then Raise UnicodeEncodeError else Ok (SqlText s).

Definition table (st : db) : result (list Recipe.t) :=
  match recipes st with
  | Some t => Ok t
  | None => Raise OperationalError
  end.

(** DROP TABLE IF EXISTS recipes: the table goes, and its
    [sqlite_sequence] entry with it. *)
Definition drop_table_if_exists (st : db) : db := None.

(** CREATE TABLE IF NOT EXISTS recipes (...): a new table is empty and
    has given out no rowid. *)
Definition create_table_if_not_exists (st : db) : db :=
  match st with
  | Some _ => st
  | None => mk_db [] 0
  end.

(** The seven columns besides [id] are declared NOT NULL. *)
Definition not_null_ok (r : Recipe.t) : bool :=
  negb (is_null (Recipe.title r)) && negb (is_null (Recipe.making_time r))
  && negb (is_null (Recipe.serves r)) && negb (is_null (Recipe.ingredients r))
  && negb (is_null (Recipe.cost r)) && negb (is_null (Recipe.created_at r))
  && negb (is_null (Recipe.updated_at r)).

(** The table is a b-tree keyed by rowid: a scan yields rows by
    ascending [id]. *)
Fixpoint insert_row (r : Recipe.t) (t : list Recipe.t) : list Recipe.t :=
  match t with
  | [] => [r]
  | r' :: t' =>
      if Recipe.id r <? Recipe.id r' then r :: t else r' :: insert_row r t'
  end.

Definition largest_rowid (t : list Recipe.t) : Z :=
  fold_right (fun r m => Z.max (Recipe.id r) m) 0 t.

(** SELECT * FROM recipes WHERE id = ?, then [fetchone()]. *)
Definition select_by_id (st : db) (i : Z) : result (option Recipe.t) :=
  t <- table st ;;
  _ <- bind_int i ;;
  Ok (find (fun r => Recipe.id r =? i) t).

(** INSERT with an explicit [id] (the seed rows). *)
Definition insert_with_id (st : db) (r : Recipe.t) : result db :=
  t <- table st ;;
  _ <- bind_int (Recipe.id r) ;;
  if negb (not_null_ok r) then Raise IntegrityError
  else if existsb (fun r' => Recipe.id r' =? Recipe.id r) t then Raise IntegrityError
  else Ok (mk_db (insert_row r t) (Z.max (sqlite_sequence st) (Recipe.id r))).

(** INSERT without [id]: AUTOINCREMENT takes one more than the largest
    rowid that ever existed, and fails once that is the largest 64-bit
    integer.  Returns the new state and [cursor.lastrowid]. *)
Definition insert_autoincrement (st : db)
    (title making_time serves ingredients cost created_at updated_at : sqlval)
    : result (db * Z) :=
  t <- table st ;;
  let top := Z.max (sqlite_sequence st) (largest_rowid t) in
  let r := Recipe.mk (top + 1) title making_time serves ingredients cost
                     created_at updated_at in
  if negb (not_null_ok r) then Raise IntegrityError
  else if INT64_MAX <=? top then Raise OperationalError
  else Ok (mk_db (insert_row r t) (top + 1), top + 1).

(** UPDATE recipes SET title=?, making_time=?, serves=?, ingredients=?,
    cost=?, updated_at=? WHERE id=?.  The six columns it assigns are
    NOT NULL. *)
Definition set_columns
    (title making_time serves ingredients cost updated_at : sqlval)
    (r : Recipe.t) : Recipe.t :=
  Recipe.mk (Recipe.id r) title making_time serves ingredients cost
            (Recipe.created_at r) updated_at.

Definition update_by_id (st : db)
    (title making_time serves ingredients cost updated_at : sqlval) (i : Z)
    : result db :=
  t <- table st ;;
  _ <- bind_int i ;;
  let r_new := set_columns title making_time serves ingredients cost updated_at in
  if existsb is_null [title; making_time; serves; ingredients; cost; updated_at]
     && existsb (fun r => Recipe.id r =? i) t
  then Raise IntegrityError
  else Ok (mk_db (map (fun r => if Recipe.id r =? i then r_new r else r) t)
                 (sqlite_sequence st)).

(** DELETE FROM recipes WHERE id = ?. *)
Definition delete_by_id (st : db) (i : Z) : result db :=
  t <- table st ;;
  _ <- bind_int i ;;
  Ok (mk_db (filter (fun r => negb (Recipe.id r =? i)) t) (sqlite_sequence st)).

(** ** init_db *)

Definition seed_1 : Recipe.t :=
  Recipe.mk 1 (SqlText "チキンカレー") (SqlText "45分") (SqlText "4人")
            (SqlText "玉ねぎ,肉,スパイス") (SqlInt 1000)
            (SqlText "2016-01-10 12:10:12") (SqlText "2016-01-10 12:10:12").

Definition seed_2 : Recipe.t :=
  Recipe.mk 2 (SqlText "オムライス") (SqlText "30分") (SqlText "2人")
            (SqlText "玉ねぎ,卵,スパイス,醤油") (SqlInt 700)
            (SqlText "2016-01-11 13:10:12") (SqlText "2016-01-11 13:10:12").

Definition initial_data : list Recipe.t := [seed_1; seed_2].

(** [cursor.executemany]: the statement once per parameter tuple. *)
Fixpoint executemany_insert (st : db) (data : list Recipe.t) : result db :=
  match data with
  | [] => Ok st
  | r :: rest => st' <- insert_with_id st r ;; executemany_insert st' rest
  end.

Definition init_db (st : db) : result db :=
  let st := drop_table_if_exists st in
  let st := create_table_if_not_exists st in
  executemany_insert st initial_data.

(** ** Responses *)

Record response : Type := mk_response {
  status : Z;
  content : json
}.

(** [dict_factory]: one dict member per column of the cursor, in column
    order. *)
Definition dict_factory (r : Recipe.t) : json :=
  JObj [ ("id"%string, JInt (Recipe.id r));
         ("title"%string, json_of_sqlval (Recipe.title r));
         ("making_time"%string, json_of_sqlval (Recipe.making_time r));
         ("serves"%string, json_of_sqlval (Recipe.serves r));
         ("ingredients"%string, json_of_sqlval (Recipe.ingredients r));
         ("cost"%string, json_of_sqlval (Recipe.cost r));
         ("created_at"%string, json_of_sqlval (Recipe.created_at r));
         ("updated_at"%string, json_of_sqlval (Recipe.updated_at r)) ].

(** [fetchone()] gives a dict or [None]. *)
Definition fetched (r : option Recipe.t) : json :=
  match r with
  | Some r => dict_factory r
  | None => JNull
  end.

(** GET /recipes *)
Definition get_recipes (st : db) : result json :=
  t <- table st ;;
  Ok (JObj [("recipes"%string, JArr (map dict_factory t))]).

(** ** The clock *)

(** A reading of [datetime.datetime.now()].  A Python datetime has
    1 <= year <= 9999, 1 <= month <= 12, 1 <= day <= 31, hour < 24,
    minute < 60 and second < 60. *)
Record datetime : Type := mk_datetime {
  year : nat;
  month : nat;
  day : nat;
  hour : nat;
  minute : nat;
  second : nat
}.

Definition digit (n : nat) : ascii := ascii_of_nat (48 + n mod 10).

(** [%m], [%d], [%H], [%M], [%S]: two digits, zero padded. *)
Definition zero_padded2 (n : nat) : string :=
  String (digit (n / 10)) (String (digit n) EmptyString).

(** [%Y]: the year in decimal, as the C library prints it, with no
    padding (glibc): a year below 1000 has fewer than four digits. *)
Definition year_text (n : nat) : string :=
  NilZero.string_of_uint (Nat.to_uint n).

(** The four digits of a year from 1000 to 9999. *)
Definition zero_padded4 (n : nat) : string :=
  String (digit (n / 1000)) (String (digit (n / 100)) (zero_padded2 n)).

(** [d.strftime('%Y-%m-%d %H:%M:%S')] *)
Definition strftime (d : datetime) : string :=
  (year_text (year d) ++ "-" ++ zero_padded2 (month d) ++ "-"
   ++ zero_padded2 (day d) ++ " " ++ zero_padded2 (hour d) ++ ":"
   ++ zero_padded2 (minute d) ++ ":" ++ zero_padded2 (second d))%string.

Definition get_current_time (now : datetime) : string := strftime now.
Arguments get_current_time : simpl never.

Definition is_digit (c : ascii) : bool :=
  let n := nat_of_ascii c in (48 <=? n)%nat && (n <=? 57)%nat.


(** ** The request schema *)

(** class RecipeCreate(BaseModel) *)
Record RecipeCreate : Type := mk_RecipeCreate {
  title : string;
  making_time : string;
  serves : string;
  ingredients : string;
  cost : Z
}.

(** *** Strings given for an [int]

    The validator (pydantic-core, [str_as_int]) trims the string, refuses
    more than 4300 bytes, and then tries in turn: the string as it is; the
    string up to a first '.' that only zeros follow; the string without
    its underscores, when they stand singly between other characters. *)

(** One character with the Unicode property White_Space at the head of
    [s], in UTF-8; the rest of [s]. *)
Definition white_space_prefix (s : string) : option string :=
  match s with
  | String c1 rest1 =>
      let b1 := nat_of_ascii c1 in
      if ((9 <=? b1) && (b1 <=? 13) || (b1 =? 32))%nat then Some rest1
      else
        match rest1 with
        | String c2 rest2 =>
            let b2 := nat_of_ascii c2 in
            if ((b1 =? 194) && ((b2 =? 133) || (b2 =? 160)))%nat then Some rest2
            else
              match rest2 with
              | String c3 rest3 =>
                  let b3 := nat_of_ascii c3 in
                  if ((b1 =? 225) && (b2 =? 154) && (b3 =? 128)
                      || (b1 =? 226) && (b2 =? 128)
                         && ((128 <=? b3) && (b3 <=? 138)
                             || (b3 =? 168) || (b3 =? 169) || (b3 =? 175))
                      || (b1 =? 226) && (b2 =? 129) && (b3 =? 159)
                      || (b1 =? 227) && (b2 =? 128) && (b3 =? 128))%nat
                  then Some rest3
                  else None
              | EmptyString => None
              end
        | EmptyString => None
        end
  | EmptyString => None
  end.

(** [str::trim_start]: at most [n] leading white-space characters go. *)
Fixpoint trim_start_upto (n : nat) (s : string) : string :=
  match n with
  | O => s
  | S n' =>
      match white_space_prefix s with
      | Some rest => trim_start_upto n' rest
      | None => s
      end
  end.

Definition trim_start (s : string) : string :=
  trim_start_upto (String.length s) s.

(** [str::trim_end]: the string up to its longest suffix of white space. *)
Fixpoint trim_end (s : string) : string :=
  match s with
  | EmptyString => EmptyString
  | String c rest =>
      match trim_start s with
      | EmptyString => EmptyString
      | _ => String c (trim_end rest)
      end
  end.

Definition trim (s : string) : string := trim_end (trim_start s).

(** A non-empty run of ASCII digits, read in base ten. *)
Definition digits_value (s : string) : option Z :=
  option_map Z.of_uint (NilZero.uint_of_string s).

Definition starts_with (c : ascii) (s : string) : bool :=
  match s with
  | String c' _ => Ascii.eqb c' c
  | EmptyString => false
  end.

Fixpoint ends_with (c : ascii) (s : string) : bool :=
  match s with
  | EmptyString => false
  | String c' EmptyString => Ascii.eqb c' c
  | String _ rest => ends_with c rest
  end.

Fixpoint contains (c : ascii) (s : string) : bool :=
  match s with
  | EmptyString => false
  | String c' rest => Ascii.eqb c' c || contains c rest
  end.

Fixpoint contains_twice (c : ascii) (s : string) : bool :=
  match s with
  | EmptyString => false
  | String c' rest => Ascii.eqb c' c && starts_with c rest || contains_twice c rest
  end.

Fixpoint remove (c : ascii) (s : string) : string :=
  match s with
  | EmptyString => EmptyString
  | String c' rest => if Ascii.eqb c' c then remove c rest else String c' (remove c rest)
  end.

(** [str::parse::<i64>], on a string too short to overflow: an optional
    sign and at least one digit. *)
Definition parse_i64 (s : string) : option Z :=
  match s with
  | EmptyString => None
  | String c rest =>
      if Ascii.eqb c "-" then option_map Z.opp (digits_value rest)
      else if Ascii.eqb c "+" then digits_value rest
      else digits_value s
  end.

(** [str::parse::<BigUint>]: one '+' may lead when no second one follows
    it; the first character after it is a digit; later underscores are
    skipped. *)
Definition parse_biguint (s : string) : option Z :=
  let s :=
    match s with
    | String c rest =>
        if Ascii.eqb c "+" && negb (starts_with "+" rest) then rest else s
    | EmptyString => s
    end in
  if starts_with "_" s then None else digits_value (remove "_" s).

(** [str::parse::<BigInt>]: a leading '-' is the sign, and is dropped
    unless a '+' follows it. *)
Definition parse_bigint (s : string) : option Z :=
  match s with
  | String c rest =>
      if Ascii.eqb c "-" then
        option_map Z.opp (parse_biguint (if starts_with "+" rest then s else rest))
      else parse_biguint s
  | EmptyString => None
  end.

(** [_parse_str]: by length, as a machine integer or as a big one. *)
Definition parse_str (s : string) (len : nat) : option Z :=
  if (len <? 19)%nat then parse_i64 s else parse_bigint s.

(** The string up to its first '.', when only zeros follow. *)
Fixpoint strip_decimal_zeros (s : string) : option string :=
  match s with
  | EmptyString => None
  | String c rest =>
      if Ascii.eqb c "."
      then if forallb (Ascii.eqb "0") (list_ascii_of_string rest)
           then Some EmptyString else None
      else option_map (String c) (strip_decimal_zeros rest)
  end.

(** The string without its underscores, as Python's [int] takes them:
    none leading, none trailing, no two in a row. *)
Definition strip_underscores (s : string) : option string :=
  if starts_with "_" s || ends_with "_" s || negb (contains "_" s)
     || contains_twice "_" s
  then None
  else Some (remove "_" s).

(** The integer a string stands for, or the kind of the error. *)
Definition str_as_int (s : string) : string + Z :=
  let s := trim s in
  let len := String.length s in
  let parsed (r : option Z) : string + Z :=
    match r with
    | Some z => inr z
    | None => inl "int_parsing"%string
    end in
  if (4300 <? len)%nat then inl "int_parsing_size"%string
  else
    match parse_str s len with
    | Some z => inr z
    | None =>
        match strip_decimal_zeros s with
        | Some s' => parsed (parse_str s' len)
        | None =>
            match strip_underscores s with
            | Some s' => parsed (parse_str s' len)
            | None => inl "int_parsing"%string
            end
        end
    end.

(** *** Floats given for an [int]

    [float_as_int]: a float is taken when it is finite, has no fraction
    and lies strictly between -2^63 and 2^63. *)
Definition float_integral (f : pyfloat) : option Z :=
  match f with
  | Finite m e =>
      if 0 <=? e then Some (m * 2 ^ e)
      else if m mod 2 ^ (- e) =? 0 then Some (m / 2 ^ (- e))
      else None
  | _ => None
  end.

Definition float_as_int (f : pyfloat) : string + Z :=
  match f with
  | Finite _ _ =>
      match float_integral f with
      | Some z =>
          if (- 2 ^ 63 <? z) && (z <? 2 ^ 63) then inr z
          else inl "int_parsing_size"%string
      | None => inl "int_from_float"%string
      end
  | _ => inl "finite_number"%string
  end.

(** One validation error: the field it is about and its kind. *)
Definition verror : Type := (string * string)%type.

(** A [str] field takes a string and nothing else. *)
Definition validate_str (k : string) (members : list (string * json))
    : verror + string :=
  match dict_get k members with
  | None => inl (k, "missing"%string)
  | Some (JStr s) => inr s
  | Some _ => inl (k, "string_type"%string)
  end.

(** An [int] is validated in the library's default (lax) mode: an
    integer is taken as it is, a bool as 0 or 1, a float when it is a
    whole number, and a string is parsed once it is known to be UTF-8. *)
Definition validate_int_value (k : string) (v : json) : verror + Z :=
  match v with
  | JInt z => inr z
  | JBool b => inr (if b then 1 else 0)
  | JFloat f =>
      match float_as_int f with
      | inr z => inr z
      | inl kind => inl (k, kind)
      end
  | JStr s =>
      if has_surrogate s then inl (k, "string_unicode"%string)
      else
        match str_as_int s with
        | inr z => inr z
        | inl kind => inl (k, kind)
        end
  | _ => inl (k, "int_type"%string)
  end.

Definition validate_int (k : string) (members : list (string * json))
    : verror + Z :=
  match dict_get k members with
  | None => inl (k, "missing"%string)
  | Some v => validate_int_value k v
  end.

Definition errors_of {A : Type} (r : verror + A) : list verror :=
  match r with
  | inl e => [e]
  | inr _ => []
  end.

(** Validation of a request body against [RecipeCreate]: every declared
    field is looked up and checked, all errors are collected, and members
    of the body that the model does not declare are not looked at. *)
Definition validate_body (body : json) : result RecipeCreate :=
  match body with
  | JObj members =>
      let t := validate_str "title" members in
      let m := validate_str "making_time" members in
      let s := validate_str "serves" members in
      let i := validate_str "ingredients" members in
      let c := validate_int "cost" members in
      match t, m, s, i, c with
      | inr t', inr m', inr s', inr i', inr c' =>
          Ok (mk_RecipeCreate t' m' s' i' c')
      | _, _, _, _, _ =>
          Raise (RequestValidationError
                   (errors_of t ++ errors_of m ++ errors_of s
                    ++ errors_of i ++ errors_of c))
      end
  | _ => Raise (RequestValidationError [("body", "model_attributes_type")%string])
  end.

(** [str(exc)], the text of the library for a list of errors.  The
    program only passes it on; it stands here as one line per error, the
    place and the kind, and nothing below depends on its wording. *)
Fixpoint str_of_errors (errors : list verror) : string :=
  match errors with
  | [] => EmptyString
  | (loc, kind) :: rest =>
      (loc ++ ": " ++ kind ++ String (ascii_of_nat 10) (str_of_errors rest))%string
  end.

(** ** Route handlers *)

Definition validation_exception_handler (errors : list verror) : response :=
  mk_response 400
    (JObj [ ("message"%string, JStr "Recipe creation failed!");
            ("detail"%string, JStr (str_of_errors errors)) ]).

(** What the framework sends for the value a route returns or the
    exception it raises. *)
Definition to_response (r : result json) : response :=
  match r with
  | Ok body => mk_response 200 body
  | Raise (RequestValidationError errors) => validation_exception_handler errors
  | Raise (HTTPException code detail) =>
      mk_response code (JObj [("detail"%string, JStr detail)])
  | Raise _ => mk_response 500 (JStr "Internal Server Error")
  end.

Definition not_found : exn := HTTPException 404 "Recipe not found".

(** POST /recipes.  The parameters of the INSERT are bound in the order
    of the tuple.  When a statement raises before [conn.commit()], the
    [finally] clause closes the connection and the insert is lost. *)
Definition create_recipe (st : db) (now : datetime) (recipe : RecipeCreate)
    : db * result json :=
  let now := get_current_time now in
  match (t <- bind_str (title recipe) ;;
         m <- bind_str (making_time recipe) ;;
         s <- bind_str (serves recipe) ;;
         i <- bind_str (ingredients recipe) ;;
         c <- bind_int (cost recipe) ;;
         created_at <- bind_str now ;;
         updated_at <- bind_str now ;;
         insert_autoincrement st t m s i c created_at updated_at) with
  | Raise e => (st, Raise e)
  | Ok (st', new_id) =>
      match select_by_id st' new_id with
      | Raise e => (st', Raise e)
      | Ok new_recipe =>
          (st', Ok (JObj [ ("message"%string, JStr "Recipe successfully created!");
                           ("recipe"%string, JArr [fetched new_recipe]) ]))
      end
  end.

(** GET /recipes/{recipe_id} *)
Definition get_recipe_detail (st : db) (recipe_id : Z) : result json :=
  recipe <- select_by_id st recipe_id ;;
  match recipe with
  | None => Raise not_found
  | Some r =>
      Ok (JObj [ ("message"%string, JStr "Recipe details by id");
                 ("recipe"%string, JArr [dict_factory r]) ])
  end.

(** PATCH /recipes/{recipe_id} *)
Definition update_recipe (st : db) (now : datetime) (recipe_id : Z)
    (recipe_update : RecipeCreate) : db * result json :=
  match select_by_id st recipe_id with
  | Raise e => (st, Raise e)
  | Ok None => (st, Raise not_found)
  | Ok (Some _) =>
      let now := get_current_time now in
      match (t <- bind_str (title recipe_update) ;;
             m <- bind_str (making_time recipe_update) ;;
             s <- bind_str (serves recipe_update) ;;
             i <- bind_str (ingredients recipe_update) ;;
             c <- bind_int (cost recipe_update) ;;
             updated_at <- bind_str now ;;
             update_by_id st t m s i c updated_at recipe_id) with
      | Raise e => (st, Raise e)
      | Ok st' =>
          match select_by_id st' recipe_id with
          | Raise e => (st', Raise e)
          | Ok updated_recipe =>
              (st', Ok (JObj [ ("message"%string, JStr "Recipe successfully updated!");
                               ("recipe"%string, JArr [fetched updated_recipe]) ]))
          end
      end
  end.

(** DELETE /recipes/{recipe_id} *)
Definition delete_recipe (st : db) (recipe_id : Z) : db * result json :=
  match select_by_id st recipe_id with
  | Raise e => (st, Raise e)
  | Ok None => (st, Raise not_found)
  | Ok (Some _) =>
      match delete_by_id st recipe_id with
      | Raise e => (st, Raise e)
      | Ok st' =>
          (st', Ok (JObj [("message"%string, JStr "Recipe successfully removed!")]))
      end
  end.

(** ** The application *)

(** A call of one of the five routes, as the framework makes it once it
    has decoded the body of the request and converted the path parameter
    to an [int]. *)
Inductive request : Type :=
| GET_recipes
| POST_recipes (body : json)
| GET_recipe (recipe_id : Z)
| PATCH_recipe (recipe_id : Z) (body : json)
| DELETE_recipe (recipe_id : Z).

(** One call: the body is validated before the route function is
    entered; a body that fails never reaches it. *)
Definition serve (st : db) (now : datetime) (rq : request) : db * response :=
  match rq with
  | GET_recipes => (st, to_response (get_recipes st))
  | POST_recipes body =>
      match validate_body body with
      | Raise e => (st, to_response (Raise e))
      | Ok recipe =>
          let (st', r) := create_recipe st now recipe in (st', to_response r)
      end
  | GET_recipe recipe_id => (st, to_response (get_recipe_detail st recipe_id))
  | PATCH_recipe recipe_id body =>
      match validate_body body with
      | Raise e => (st, to_response (Raise e))
      | Ok recipe_update =>
          let (st', r) := update_recipe st now recipe_id recipe_update in
          (st', to_response r)
      end
  | DELETE_recipe recipe_id =>
      let (st', r) := delete_recipe st recipe_id in (st', to_response r)
  end.

(** A run of the service: requests served one after the other, each with
    the clock reading at its time. *)
Fixpoint run (st : db) (trace : list (datetime * request)) : db :=
  match trace with
  | [] => st
  | (now, rq) :: rest => run (fst (serve st now rq)) rest
  end.

(** The states the service can be in: started by [init_db] on whatever
    the database file held, then any number of requests. *)
Inductive reachable : db -> Prop :=
| reachable_startup : forall st0 st,
    init_db st0 = Ok st -> reachable st
| reachable_serve : forall st now rq,
    reachable st -> reachable (fst (serve st now rq)).

(** ** Requests as they arrive

    Before it calls a route the framework reads the body with
    [json.loads] and converts the path parameter.  [int] refuses a
    literal of more than 4300 digits, so a body that holds one anywhere
    cannot be read: that is a ValueError, which the framework answers
    with a 400 of its own.  A path parameter is validated as an [int]
    given as a string; when that fails the errors of the path and of the
    body go to [validation_exception_handler] together, the path first. *)

(** [json.loads] reads the document. *)
Fixpoint loadable (document : json) : bool :=
  match document with
  | JInt z => Z.abs z <? 10 ^ 4300
  | JArr items => forallb loadable items
  | JObj members => forallb (fun kv => loadable (snd kv)) members
  | _ => true
  end.

Definition body_parse_error : response :=
  mk_response 400
    (JObj [("detail"%string, JStr "There was an error parsing the body")]).

(** The router takes for [{recipe_id}] a segment that is not empty and
    holds no '/'. *)
Definition matched (segment : string) : bool :=
  negb (segment =? "")%string && negb (contains "/" segment).

Definition path_int (segment : string) : verror + Z :=
  match str_as_int segment with
  | inr z => inr z
  | inl kind => inl ("recipe_id"%string, kind)
  end.

Definition body_errors (body : json) : list verror :=
  match validate_body body with
  | Raise (RequestValidationError errors) => errors
  | _ => []
  end.

(** A request for one of the five routes: the path segment after
    /recipes/ as text, the body as the JSON document sent. *)
Inductive http_request : Type :=
| HTTP_GET_recipes
| HTTP_POST_recipes (document : json)
| HTTP_GET_recipe (segment : string)
| HTTP_PATCH_recipe (segment : string) (document : json)
| HTTP_DELETE_recipe (segment : string).

(** What the service does with a request; [None] when the router finds
    no route of the program for the path. *)
Definition handle (st : db) (now : datetime) (rq : http_request)
    : option (db * response) :=
  match rq with
  | HTTP_GET_recipes => Some (serve st now GET_recipes)
  | HTTP_POST_recipes document =>
      if loadable document then Some (serve st now (POST_recipes document))
      else Some (st, body_parse_error)
  | HTTP_GET_recipe segment =>
      if matched segment then
        match path_int segment with
        | inr recipe_id => Some (serve st now (GET_recipe recipe_id))
        | inl e => Some (st, validation_exception_handler [e])
        end
      else None
  | HTTP_PATCH_recipe segment document =>
      if matched segment then
        if loadable document then
          match path_int segment with
          | inr recipe_id => Some (serve st now (PATCH_recipe recipe_id document))
          | inl e => Some (st, validation_exception_handler (e :: body_errors document))
          end
        else Some (st, body_parse_error)
      else None
  | HTTP_DELETE_recipe segment =>
      if matched segment then
        match path_int segment with
        | inr recipe_id => Some (serve st now (DELETE_recipe recipe_id))
        | inl e => Some (st, validation_exception_handler [e])
        end
      else None
  end.

(** ** Reading a response *)

(** The member [k] of a response body that is an object. *)
Definition member (k : string) (body : json) : option json :=
  match body with
  | JObj members => dict_get k members
  | _ => None
  end.

(** The only recipe of a single-item response. *)
Definition the_recipe (r : response) : option json :=
  match member "recipe" (content r) with
  | Some (JArr [x]) => Some x
  | _ => None
  end.

Definition seeded : db := mk_db initial_data 2.

Definition t0 : datetime := mk_datetime 2024 10 27 1 59 59.

Definition payload : json :=
  JObj [ ("title"%string, JStr "T"); ("making_time"%string, JStr "10 min");
         ("serves"%string, JStr "2"); ("ingredients"%string, JStr "a,b");
         ("cost"%string, JInt 5) ].

(** ** Well-formed states *)

Definition rows (st : db) : list Recipe.t :=
  match recipes st with
  | Some t => t
  | None => []
  end.

Definition is_text (v : sqlval) : bool :=
  match v with SqlText _ => true | _ => false end.

Definition is_integer (v : sqlval) : bool :=
  match v with SqlInt z => in_int64 z | _ => false end.

(** Every column of the row holds a value of the declared type. *)
Definition populated (r : Recipe.t) : bool :=
  is_text (Recipe.title r) && is_text (Recipe.making_time r)
  && is_text (Recipe.serves r) && is_text (Recipe.ingredients r)
  && is_integer (Recipe.cost r) && is_text (Recipe.created_at r)
  && is_text (Recipe.updated_at r).

Definition ids (t : list Recipe.t) : list Z := map Recipe.id t.

(** What every state of the running service satisfies. *)
Record inv (st : db) : Prop := mk_inv {
  inv_table : recipes st = Some (rows st);
  inv_sorted : StronglySorted Z.lt (ids (rows st));
  inv_ids : Forall (fun r => 1 <= Recipe.id r <= sqlite_sequence st) (rows st);
  inv_seq : 0 <= sqlite_sequence st <= INT64_MAX;
  inv_populated : Forall (fun r => populated r = true) (rows st)
}.

(** Order of TEXT values (and of Python strings): byte by byte. *)
Definition text_le (a b : sqlval) : bool :=
  match a, b with
  | SqlText x, SqlText y => (x <=? y)%string
  | _, _ => false
  end.

(** Ids handed to clients: a successful POST reports the id of the row it
    created. *)
Definition created_id (rq : request) (r : response) : option Z :=
  match rq with
  | POST_recipes _ =>
      if status r =? 200 then
        match the_recipe r with
        | Some row =>
            match member "id" row with
            | Some (JInt i) => Some i
            | _ => None
            end
        | None => None
        end
      else None
  | _ => None
  end.

Fixpoint created_ids (st : db) (trace : list (datetime * request)) : list Z :=
  match trace with
  | [] => []
  | (now, rq) :: rest =>
      let (st', r) := serve st now rq in
      match created_id rq r with
      | Some i => i :: created_ids st' rest
      | None => created_ids st' rest
      end
  end.

(** Every id the storage layer has given out since startup, oldest first. *)
Definition issued_ids (st : db) (trace : list (datetime * request)) : list Z :=
  ids (rows st) ++ created_ids st trace.




(** ** Vocabulary of the statements *)

(** The row POST stores and the row PATCH leaves behind. *)
Definition new_row (i : Z) (now : datetime) (recipe : RecipeCreate) : Recipe.t :=
  Recipe.mk i (SqlText (title recipe)) (SqlText (making_time recipe))
            (SqlText (serves recipe)) (SqlText (ingredients recipe))
            (SqlInt (cost recipe))
            (SqlText (get_current_time now)) (SqlText (get_current_time now)).

Definition updated_row (now : datetime) (recipe_update : RecipeCreate) (r : Recipe.t)
    : Recipe.t :=
  Recipe.mk (Recipe.id r) (SqlText (title recipe_update))
            (SqlText (making_time recipe_update)) (SqlText (serves recipe_update))
            (SqlText (ingredients recipe_update)) (SqlInt (cost recipe_update))
            (Recipe.created_at r) (SqlText (get_current_time now)).

Definition single (message : string) (r : Recipe.t) : json :=
  JObj [ ("message"%string, JStr message); ("recipe"%string, JArr [dict_factory r]) ].

Definition patched (now : datetime) (recipe_update : RecipeCreate) (i : Z)
    (t : list Recipe.t) : list Recipe.t :=
  map (fun r => if Recipe.id r =? i then updated_row now recipe_update r else r) t.


(** The recipes whose five values can be bound as statement parameters:
    text without a lone surrogate, a cost within 64 bits. *)
Definition bindable (recipe : RecipeCreate) : bool :=
  negb (has_surrogate (title recipe)) && negb (has_surrogate (making_time recipe))
  && negb (has_surrogate (serves recipe)) && negb (has_surrogate (ingredients recipe))
  && in_int64 (cost recipe).

(** What binding raises otherwise: the strings come first. *)
Definition bind_failure (recipe : RecipeCreate) : exn :=
  if has_surrogate (title recipe) || has_surrogate (making_time recipe)
     || has_surrogate (serves recipe) || has_surrogate (ingredients recipe)
  then UnicodeEncodeError
  else OverflowError.

(** Every byte of the string satisfies [p]. *)
Fixpoint all_bytes (p : ascii -> bool) (s : string) : bool :=
  match s with
  | EmptyString => true
  | String c rest => p c && all_bytes p rest
  end.

Definition is_ascii (c : ascii) : bool := (nat_of_ascii c <? 128)%nat.


Ltac db_simpl :=
  cbn [rows recipes sqlite_sequence mk_db option_map table_rows table_sequence
       fst snd].

(** A create payload whose cost is 2^63, one more than SQLite's largest
    INTEGER. *)
Definition payload_cost_2_63 : json :=
  JObj [ ("title"%string, JStr "T"); ("making_time"%string, JStr "10 min");
         ("serves"%string, JStr "2"); ("ingredients"%string, JStr "a,b");
         ("cost"%string, JInt 9223372036854775808) ].

(** The clock one hour back, as after the end of daylight saving time. *)
Definition t1 : datetime := mk_datetime 2024 10 27 1 0 0.

Definition not_found_response : response :=
  mk_response 404 (JObj [("detail"%string, JStr "Recipe not found")]).

Definition server_error : response :=
  mk_response 500 (JStr "Internal Server Error").

(** The payload of the specification with the cost sent as the string
    "5". *)
Definition payload_cost_string : json :=
  JObj [ ("title"%string, JStr "T"); ("making_time"%string, JStr "10 min");
         ("serves"%string, JStr "2"); ("ingredients"%string, JStr "a,b");
         ("cost"%string, JStr "5") ].








(** The fields [RecipeCreate] declares. *)
Definition declared_fields : list string :=
  ["title"; "making_time"; "serves"; "ingredients"; "cost"]%string.

Definition declared (k : string) : bool :=
  existsb (String.eqb k) declared_fields.

(** A request body without the members the model does not declare. *)
Definition declared_only (members : list (string * json)) : list (string * json) :=
  filter (fun kv => declared (fst kv)) members.


(** ** The rest of the program *)


(** [d[k] = v] on a Python dict: a key the dict has keeps its place and
    takes the new value, a new key goes last. *)
Fixpoint dict_set (k : string) (v : json) (d : list (string * json))
    : list (string * json) :=
  match d with
  | [] => [(k, v)]
  | (k', v') :: rest =>
      if (k' =? k)%string then (k', v) :: rest else (k', v') :: dict_set k v rest
  end.

(** The loop of [dict_factory(cursor, row)]:
    [for idx, col in enumerate(cursor.description): d[col[0]] = row[idx]].
    [description] holds the column names; [row[idx]] past the end of the
    row is an IndexError, [None] here. *)
Fixpoint dict_factory_loop (description : list string) (row : list sqlval)
    (d : list (string * json)) : option (list (string * json)) :=
  match description with
  | [] => Some d
  | col :: description' =>
      match row with
      | [] => None
      | v :: row' =>
          dict_factory_loop description' row' (dict_set col (json_of_sqlval v) d)
      end
  end.

Definition dict_factory_cursor (description : list string) (row : list sqlval)
    : option json :=
  option_map JObj (dict_factory_loop description row []).

(** The cursor description of [SELECT * FROM recipes] and the tuple it
    yields for a row. *)
Definition recipes_columns : list string :=
  ["id"; "title"; "making_time"; "serves"; "ingredients"; "cost";
   "created_at"; "updated_at"]%string.

Definition row_tuple (r : Recipe.t) : list sqlval :=
  [SqlInt (Recipe.id r); Recipe.title r; Recipe.making_time r; Recipe.serves r;
   Recipe.ingredients r; Recipe.cost r; Recipe.created_at r; Recipe.updated_at r].

(** The recipes of a list response. *)
Definition listed (r : response) : list json :=
  match member "recipes" (content r) with
  | Some (JArr items) => items
  | _ => []
  end.

(** A datetime the process clock can give. *)
Definition valid_datetime (d : datetime) : Prop :=
  1000 <= Z.of_nat (year d) <= 9999
  /\ (1 <= month d <= 12 /\ 1 <= day d <= 31
      /\ hour d < 24 /\ minute d < 60 /\ second d < 60)%nat.

Definition and_then (c rest : comparison) : comparison :=
  match c with
  | Eq => rest
  | _ => c
  end.

(** Order of civil time: by year, then month, day, hour, minute, second. *)
Definition chronological (d1 d2 : datetime) : comparison :=
  and_then (year d1 ?= year d2)%nat
    (and_then (month d1 ?= month d2)%nat
       (and_then (day d1 ?= day d2)%nat
          (and_then (hour d1 ?= hour d2)%nat
             (and_then (minute d1 ?= minute d2)%nat
                (second d1 ?= second d2)%nat)))).

(** The calls that make a statement fail: a value that cannot be bound
    reaches a statement, or a create finds the id sequence at its end. *)
Definition statement_fails (st : db) (rq : request) : Prop :=
  match rq with
  | GET_recipes => False
  | POST_recipes body =>
      exists recipe,
        validate_body body = Ok recipe
        /\ (bindable recipe = false \/ sqlite_sequence st = INT64_MAX)
  | GET_recipe recipe_id => in_int64 recipe_id = false
  | PATCH_recipe recipe_id body =>
      exists recipe_update,
        validate_body body = Ok recipe_update
        /\ (in_int64 recipe_id = false
            \/ (In recipe_id (ids (rows st))
                /\ bindable recipe_update = false))
  | DELETE_recipe recipe_id => in_int64 recipe_id = false
  end.

(** The calls that address a recipe storage does not hold. *)
Definition addresses_nothing (st : db) (rq : request) : Prop :=
  match rq with
  | GET_recipes | POST_recipes _ => False
  | GET_recipe recipe_id | DELETE_recipe recipe_id =>
      in_int64 recipe_id = true /\ ~ In recipe_id (ids (rows st))
  | PATCH_recipe recipe_id body =>
      (exists recipe_update, validate_body body = Ok recipe_update)
      /\ in_int64 recipe_id = true /\ ~ In recipe_id (ids (rows st))
  end.

(** The calls whose body the validator rejects. *)
Definition body_rejected (rq : request) : Prop :=
  match rq with
  | POST_recipes body | PATCH_recipe _ body =>
      exists errors, validate_body body = Raise (RequestValidationError errors)
  | _ => False
  end.

(** * Facts *)

Example init_db_fresh :
  init_db None = Ok (mk_db initial_data 2).
Proof. reflexivity. Qed.

Example get_current_time_t0 : get_current_time t0 = "2024-10-27 01:59:59"%string.
Proof. reflexivity. Qed.

Example str_as_int_examples :
  str_as_int "5" = inr 5 /\ str_as_int "-12" = inr (-12)
  /\ str_as_int " 5 " = inr 5 /\ str_as_int "1_000" = inr 1000
  /\ str_as_int "5.0" = inr 5 /\ str_as_int "five" = inl "int_parsing"%string
  /\ str_as_int "5.5" = inl "int_parsing"%string
  /\ str_as_int "" = inl "int_parsing"%string.
Proof. repeat split; reflexivity. Qed.

Example float_as_int_examples :
  float_as_int (Finite 5 0) = inr 5
  /\ float_as_int (Finite 11 (-1)) = inl "int_from_float"%string
  /\ float_as_int (Finite 1 63) = inl "int_parsing_size"%string
  /\ float_as_int NaN = inl "finite_number"%string.
Proof. repeat split; reflexivity. Qed.

Example has_surrogate_examples :
  has_surrogate "チキンカレー" = false
  /\ has_surrogate (String (ascii_of_nat 237) (String (ascii_of_nat 160)
                      (String (ascii_of_nat 128) EmptyString))) = true.
Proof. split; reflexivity. Qed.

Example validate_body_payload :
  validate_body payload = Ok (mk_RecipeCreate "T" "10 min" "2" "a,b" 5).
Proof. reflexivity. Qed.

Example validate_body_last_member_wins :
  validate_body
    (JObj [ ("title"%string, JStr "T"); ("making_time"%string, JStr "10 min");
            ("serves"%string, JStr "2"); ("ingredients"%string, JStr "a,b");
            ("cost"%string, JInt 5); ("cost"%string, JInt 6) ])
  = Ok (mk_RecipeCreate "T" "10 min" "2" "a,b" 6).
Proof. reflexivity. Qed.

Example validate_body_missing_cost :
  validate_body
    (JObj [ ("title"%string, JStr "T"); ("making_time"%string, JStr "10 min");
            ("serves"%string, JStr "2"); ("ingredients"%string, JStr "a,b") ])
  = Raise (RequestValidationError [("cost", "missing")%string]).
Proof. reflexivity. Qed.

(** ** Lists of rows *)

Section Tables.

Implicit Types (t : list Recipe.t) (r : Recipe.t) (i : Z).

Lemma largest_rowid_bound t m :
  0 <= m -> Forall (fun r => Recipe.id r <= m) t -> largest_rowid t <= m.
Proof.
  intros Hm H. induction H as [|r t Hr _ IH]; simpl; lia.
Qed.

Lemma insert_row_last t r :
  Forall (fun r' => Recipe.id r' < Recipe.id r) t -> insert_row r t = t ++ [r].
Proof.
  induction 1 as [|r' t Hr _ IH]; simpl; [reflexivity|].
  destruct (Z.ltb_spec (Recipe.id r) (Recipe.id r')); [lia|]. now rewrite IH.
Qed.

Lemma find_absent t i :
  Forall (fun r => Recipe.id r <> i) t -> find (fun r => Recipe.id r =? i) t = None.
Proof.
  induction 1 as [|r t Hr _ IH]; simpl; [reflexivity|].
  destruct (Z.eqb_spec (Recipe.id r) i); [contradiction|assumption].
Qed.

Lemma find_some_id t i r :
  find (fun r => Recipe.id r =? i) t = Some r -> In r t /\ Recipe.id r = i.
Proof.
  intros H. apply find_some in H. destruct H as [H1 H2].
  apply Z.eqb_eq in H2. auto.
Qed.

Lemma find_last t r :
  Forall (fun r' => Recipe.id r' < Recipe.id r) t ->
  find (fun r' => Recipe.id r' =? Recipe.id r) (t ++ [r]) = Some r.
Proof.
  induction 1 as [|r' t Hr _ IH]; simpl.
  - now rewrite Z.eqb_refl.
  - destruct (Z.eqb_spec (Recipe.id r') (Recipe.id r)); [lia|assumption].
Qed.

Lemma find_updated t i (f : Recipe.t -> Recipe.t) :
  (forall r, Recipe.id (f r) = Recipe.id r) ->
  find (fun r => Recipe.id r =? i) (map (fun r => if Recipe.id r =? i then f r else r) t)
  = option_map f (find (fun r => Recipe.id r =? i) t).
Proof.
  intros Hf. induction t as [|r t IH]; simpl; [reflexivity|].
  destruct (Z.eqb_spec (Recipe.id r) i) as [E|E].
  - rewrite Hf. apply Z.eqb_eq in E. now rewrite E.
  - apply Z.eqb_neq in E. now rewrite E.
Qed.

Lemma find_deleted t i :
  find (fun r => Recipe.id r =? i) (filter (fun r => negb (Recipe.id r =? i)) t) = None.
Proof.
  apply find_absent, Forall_forall. intros r Hr.
  apply filter_In in Hr. destruct Hr as [_ Hr].
  destruct (Z.eqb_spec (Recipe.id r) i); [discriminate|assumption].
Qed.

Lemma ids_updated t i (f : Recipe.t -> Recipe.t) :
  (forall r, Recipe.id (f r) = Recipe.id r) ->
  ids (map (fun r => if Recipe.id r =? i then f r else r) t) = ids t.
Proof.
  intros Hf. unfold ids. rewrite map_map. apply map_ext.
  intros r. destruct (Recipe.id r =? i); auto.
Qed.

Lemma sorted_ids_deleted t (p : Recipe.t -> bool) :
  StronglySorted Z.lt (ids t) -> StronglySorted Z.lt (ids (filter p t)).
Proof.
  induction t as [|r t IH]; simpl; intros H; [constructor|].
  inversion H as [|? ? Ht Hr]; subst.
  destruct (p r); simpl; auto.
  constructor; auto.
  rewrite Forall_forall in *. intros x Hx. apply Hr.
  unfold ids in *. rewrite in_map_iff in *.
  destruct Hx as [y [Hy Hin]]. exists y. split; auto.
  apply filter_In in Hin. tauto.
Qed.

Lemma sorted_ids_last t r :
  StronglySorted Z.lt (ids t) ->
  Forall (fun r' => Recipe.id r' < Recipe.id r) t ->
  StronglySorted Z.lt (ids (t ++ [r])).
Proof.
  induction t as [|r' t IH]; simpl; intros Hs Hlt.
  - repeat constructor.
  - inversion Hs as [|? ? Ht Hr]; subst. inversion Hlt; subst.
    constructor; auto.
    unfold ids. rewrite map_app. apply Forall_app. split; auto.
    simpl. constructor; auto.
Qed.


Lemma delete_absent t i :
  Forall (fun r => Recipe.id r <> i) t ->
  filter (fun r => negb (Recipe.id r =? i)) t = t.
Proof.
  induction 1 as [|r t Hr _ IH]; simpl; [reflexivity|].
  destruct (Z.eqb_spec (Recipe.id r) i); [contradiction|]. simpl. now rewrite IH.
Qed.

(** With distinct ids, deleting by id removes one row. *)
Lemma length_deleted t i :
  StronglySorted Z.lt (ids t) -> In i (ids t) ->
  S (List.length (filter (fun r => negb (Recipe.id r =? i)) t)) = List.length t.
Proof.
  induction t as [|r t IH]; simpl; intros Hs Hin; [contradiction|].
  inversion Hs as [|? ? Ht Hr]; subst.
  destruct (Z.eqb_spec (Recipe.id r) i) as [E|E]; simpl.
  - f_equal. rewrite delete_absent; [reflexivity|].
    rewrite Forall_forall in *. intros x Hx.
    assert (Recipe.id r < Recipe.id x) by (apply Hr, in_map, Hx). lia.
  - f_equal. apply IH; auto. destruct Hin; [contradiction|assumption].
Qed.

Lemma find_present t r :
  StronglySorted Z.lt (ids t) -> In r t ->
  find (fun r' => Recipe.id r' =? Recipe.id r) t = Some r.
Proof.
  induction t as [|x t IH]; simpl; intros Hs Hin; [contradiction|].
  inversion Hs as [|? ? Ht Hx]; subst.
  destruct Hin as [->|Hin].
  - now rewrite Z.eqb_refl.
  - rewrite Forall_forall in Hx.
    assert (Recipe.id x < Recipe.id r) by (apply Hx, in_map, Hin).
    destruct (Z.eqb_spec (Recipe.id x) (Recipe.id r)); [lia|]. now apply IH.
Qed.

Lemma same_id_same_row t r r' :
  StronglySorted Z.lt (ids t) -> In r t -> In r' t -> Recipe.id r = Recipe.id r' ->
  r = r'.
Proof.
  intros Hs Hr Hr' E.
  pose proof (find_present t r Hs Hr) as H1.
  pose proof (find_present t r' Hs Hr') as H2.
  rewrite E in H1. congruence.
Qed.


End Tables.

(** ** Text *)

Section Text.

Implicit Types (s : string) (c : ascii) (p : ascii -> bool).

Lemma all_bytes_append p s1 s2 :
  all_bytes p (s1 ++ s2) = all_bytes p s1 && all_bytes p s2.
Proof.
  induction s1 as [|c s1 IH]; simpl; [reflexivity|].
  now rewrite IH, andb_assoc.
Qed.

Lemma all_bytes_impl p q s :
  (forall c, p c = true -> q c = true) -> all_bytes p s = true -> all_bytes q s = true.
Proof.
  intros Hpq. induction s as [|c s IH]; simpl; [reflexivity|].
  rewrite !andb_true_iff. intros [Hc Hs]. auto.
Qed.

Lemma is_digit_ascii c : is_digit c = true -> is_ascii c = true.
Proof.
  unfold is_digit, is_ascii. rewrite andb_true_iff, !Nat.leb_le, Nat.ltb_lt. lia.
Qed.

(** A lone surrogate is no ASCII. *)
Lemma has_surrogate_ascii s : all_bytes is_ascii s = true -> has_surrogate s = false.
Proof.
  induction s as [|c1 s IH]; [reflexivity|].
  cbn [all_bytes]. rewrite andb_true_iff. intros [Hc Hs].
  destruct s as [|c2 s]; [reflexivity|].
  change (has_surrogate (String c1 (String c2 s)))
    with ((nat_of_ascii c1 =? 237)%nat
          && (160 <=? nat_of_ascii c2)%nat && (nat_of_ascii c2 <=? 191)%nat
          || has_surrogate (String c2 s)).
  rewrite (IH Hs), orb_false_r.
  unfold is_ascii in Hc. apply Nat.ltb_lt in Hc.
  destruct (Nat.eqb_spec (nat_of_ascii c1) 237); [lia|reflexivity].
Qed.

Lemma all_digits_string_of_uint d : all_bytes is_digit (NilEmpty.string_of_uint d) = true.
Proof. induction d; simpl; auto. Qed.

Lemma all_digits_year_text n : all_bytes is_digit (year_text n) = true.
Proof.
  unfold year_text, NilZero.string_of_uint.
  destruct (Nat.to_uint n) eqn:E; try reflexivity;
    rewrite <- E; apply all_digits_string_of_uint.
Qed.

Lemma is_digit_digit n : is_digit (digit n) = true.
Proof.
  unfold is_digit, digit.
  assert (H : (n mod 10 < 10)%nat) by (apply Nat.mod_upper_bound; lia).
  rewrite nat_ascii_embedding by lia.
  apply andb_true_iff. split; apply Nat.leb_le; lia.
Qed.

Lemma is_ascii_digit n : is_ascii (digit n) = true.
Proof. apply is_digit_ascii, is_digit_digit. Qed.

Lemma all_ascii_get_current_time now : all_bytes is_ascii (get_current_time now) = true.
Proof.
  unfold get_current_time, strftime, zero_padded2.
  rewrite all_bytes_append.
  rewrite (all_bytes_impl _ _ _ is_digit_ascii (all_digits_year_text _)).
  cbn [append all_bytes]. now rewrite !is_ascii_digit.
Qed.

Lemma bind_str_get_current_time now :
  bind_str (get_current_time now) = Ok (SqlText (get_current_time now)).
Proof.
  unfold bind_str. now rewrite has_surrogate_ascii by apply all_ascii_get_current_time.
Qed.

End Text.

(** ** Numbers in strings *)

Section Numerals.

Implicit Types (s : string) (c : ascii).

(** *** Bytes that no number holds *)






Lemma white_space_prefix_shorter s rest :
  white_space_prefix s = Some rest -> (String.length rest < String.length s)%nat.
Proof.
  unfold white_space_prefix.
  destruct s as [|c1 [|c2 [|c3 s]]]; try discriminate;
    repeat match goal with
           | |- context [if ?b then _ else _] => destruct b
           end;
    intros [= <-]; simpl; lia.
Qed.

(** [trim_start] stops at a character that is no white space. *)
Lemma trim_start_done s : white_space_prefix (trim_start s) = None.
Proof.
  unfold trim_start.
  assert (H : forall n t, (String.length t <= n)%nat ->
                          white_space_prefix (trim_start_upto n t) = None).
  { induction n as [|n IH]; intros t Ht.
    - destruct t; [reflexivity|simpl in Ht; lia].
    - cbn [trim_start_upto]. destruct (white_space_prefix t) as [rest|] eqn:E; [|exact E].
      apply IH. apply white_space_prefix_shorter in E. lia. }
  now apply H.
Qed.


















(** *** The numeral of an integer *)

















(** *** How long a numeral is *)






End Numerals.

(** ** What each route does on a well-formed state *)

Lemma init_db_seeded st0 : init_db st0 = Ok seeded.
Proof. reflexivity. Qed.

Lemma inv_seeded : inv seeded.
Proof.
  constructor; simpl.
  - reflexivity.
  - repeat constructor.
  - repeat constructor; simpl; lia.
  - unfold INT64_MAX. lia.
  - repeat constructor.
Qed.

Lemma inv_top st :
  inv st -> Z.max (sqlite_sequence st) (largest_rowid (rows st)) = sqlite_sequence st.
Proof.
  intros I. apply Z.max_l, largest_rowid_bound.
  - apply (inv_seq _ I).
  - eapply Forall_impl; [|apply (inv_ids _ I)]. simpl. lia.
Qed.

Lemma inv_below_next st :
  inv st -> Forall (fun r => Recipe.id r < sqlite_sequence st + 1) (rows st).
Proof.
  intros I. eapply Forall_impl; [|apply (inv_ids _ I)]. simpl. lia.
Qed.

Lemma in_int64_bounds z : in_int64 z = true <-> INT64_MIN <= z <= INT64_MAX.
Proof. unfold in_int64. rewrite andb_true_iff, !Z.leb_le. tauto. Qed.

(** Binding the five values of a recipe, in the order of the parameter
    tuples. *)
Lemma bind_recipe A (recipe : RecipeCreate)
    (k : sqlval -> sqlval -> sqlval -> sqlval -> sqlval -> result A) :
  (t <- bind_str (title recipe) ;;
   m <- bind_str (making_time recipe) ;;
   s <- bind_str (serves recipe) ;;
   i <- bind_str (ingredients recipe) ;;
   c <- bind_int (cost recipe) ;;
   k t m s i c)
  = if bindable recipe
    then k (SqlText (title recipe)) (SqlText (making_time recipe))
           (SqlText (serves recipe)) (SqlText (ingredients recipe))
           (SqlInt (cost recipe))
    else Raise (bind_failure recipe).
Proof.
  unfold bindable, bind_failure, bind_str, bind_int.
  destruct (has_surrogate (title recipe)); [reflexivity|].
  destruct (has_surrogate (making_time recipe)); [reflexivity|].
  destruct (has_surrogate (serves recipe)); [reflexivity|].
  destruct (has_surrogate (ingredients recipe)); [reflexivity|].
  destruct (in_int64 (cost recipe)); reflexivity.
Qed.

Lemma bindable_cost recipe : bindable recipe = true -> in_int64 (cost recipe) = true.
Proof. unfold bindable. rewrite !andb_true_iff. tauto. Qed.

Lemma to_response_bind_failure recipe :
  to_response (Raise (bind_failure recipe)) = server_error.
Proof. unfold bind_failure. destruct (_ || _); reflexivity. Qed.

Lemma create_recipe_spec st now recipe :
  inv st ->
  create_recipe st now recipe =
    if bindable recipe then
      if INT64_MAX <=? sqlite_sequence st then (st, Raise OperationalError)
      else
        let r := new_row (sqlite_sequence st + 1) now recipe in
        (mk_db (rows st ++ [r]) (sqlite_sequence st + 1),
         Ok (single "Recipe successfully created!" r))
    else (st, Raise (bind_failure recipe)).
Proof.
  intros I. unfold create_recipe. rewrite bind_recipe.
  destruct (bindable recipe); [|reflexivity].
  rewrite bind_str_get_current_time. cbn [bind].
  unfold insert_autoincrement, table. rewrite (inv_table _ I). simpl.
  rewrite (inv_top _ I).
  destruct (INT64_MAX <=? sqlite_sequence st) eqn:E; [reflexivity|].
  apply Z.leb_gt in E.
  pose proof (inv_below_next _ I) as Hlt.
  pose proof (inv_seq _ I) as Hseq.
  rewrite insert_row_last by exact Hlt.
  unfold select_by_id, table, bind_int. simpl.
  assert (Hr : in_int64 (sqlite_sequence st + 1) = true).
  { apply in_int64_bounds. unfold INT64_MIN, INT64_MAX in *. lia. }
  rewrite Hr. simpl.
  change (sqlite_sequence st + 1)
    with (Recipe.id (new_row (sqlite_sequence st + 1) now recipe)) at 3.
  rewrite find_last by exact Hlt. reflexivity.
Qed.

Lemma select_by_id_spec st i :
  inv st ->
  select_by_id st i =
    if in_int64 i then Ok (find (fun r => Recipe.id r =? i) (rows st))
    else Raise OverflowError.
Proof.
  intros I. unfold select_by_id, table, bind_int. rewrite (inv_table _ I). simpl.
  destruct (in_int64 i); reflexivity.
Qed.

Lemma get_recipe_detail_spec st i :
  inv st ->
  get_recipe_detail st i =
    if in_int64 i then
      match find (fun r => Recipe.id r =? i) (rows st) with
      | Some r => Ok (single "Recipe details by id" r)
      | None => Raise not_found
      end
    else Raise OverflowError.
Proof.
  intros I. unfold get_recipe_detail. rewrite (select_by_id_spec _ _ I).
  destruct (in_int64 i); simpl; [|reflexivity].
  destruct (find _ _); reflexivity.
Qed.

Lemma update_recipe_spec st now i recipe_update :
  inv st ->
  update_recipe st now i recipe_update =
    if in_int64 i then
      match find (fun r => Recipe.id r =? i) (rows st) with
      | None => (st, Raise not_found)
      | Some r =>
          if bindable recipe_update then
            (mk_db (patched now recipe_update i (rows st)) (sqlite_sequence st),
             Ok (single "Recipe successfully updated!" (updated_row now recipe_update r)))
          else (st, Raise (bind_failure recipe_update))
      end
    else (st, Raise OverflowError).
Proof.
  intros I. unfold update_recipe. rewrite (select_by_id_spec _ _ I).
  destruct (in_int64 i) eqn:Hi; [|reflexivity].
  destruct (find _ (rows st)) as [r|] eqn:Hf; [|reflexivity].
  rewrite bind_recipe. destruct (bindable recipe_update); [|reflexivity].
  rewrite bind_str_get_current_time. cbn [bind].
  unfold update_by_id, table, bind_int. rewrite (inv_table _ I), Hi. simpl.
  unfold select_by_id, table, bind_int. simpl. rewrite Hi. simpl.
  change (map _ (rows st)) with (patched now recipe_update i (rows st)).
  unfold patched. rewrite find_updated by reflexivity. rewrite Hf. reflexivity.
Qed.

Lemma delete_recipe_spec st i :
  inv st ->
  delete_recipe st i =
    if in_int64 i then
      match find (fun r => Recipe.id r =? i) (rows st) with
      | None => (st, Raise not_found)
      | Some _ =>
          (mk_db (filter (fun r => negb (Recipe.id r =? i)) (rows st))
                 (sqlite_sequence st),
           Ok (JObj [("message"%string, JStr "Recipe successfully removed!")]))
      end
    else (st, Raise OverflowError).
Proof.
  intros I. unfold delete_recipe. rewrite (select_by_id_spec _ _ I).
  destruct (in_int64 i) eqn:Hi; [|reflexivity].
  destruct (find _ (rows st)) as [r|] eqn:Hf; [|reflexivity].
  unfold delete_by_id, table, bind_int. rewrite (inv_table _ I), Hi. reflexivity.
Qed.

(** The same, as answers. *)

Lemma serve_GET_recipes st now :
  inv st ->
  serve st now GET_recipes
  = (st, mk_response 200 (JObj [("recipes"%string, JArr (map dict_factory (rows st)))])).
Proof.
  intros I. unfold serve, get_recipes, table. now rewrite (inv_table _ I).
Qed.

Lemma serve_POST st now body :
  inv st ->
  serve st now (POST_recipes body) =
    match validate_body body with
    | Raise e => (st, to_response (Raise e))
    | Ok recipe =>
        if bindable recipe && (sqlite_sequence st <? INT64_MAX) then
          let r := new_row (sqlite_sequence st + 1) now recipe in
          (mk_db (rows st ++ [r]) (sqlite_sequence st + 1),
           mk_response 200 (single "Recipe successfully created!" r))
        else (st, server_error)
    end.
Proof.
  intros I. unfold serve. destruct (validate_body body) as [recipe|e]; [|reflexivity].
  rewrite (create_recipe_spec _ _ _ I).
  destruct (bindable recipe); [|now rewrite to_response_bind_failure]. simpl andb.
  destruct (Z.leb_spec INT64_MAX (sqlite_sequence st)),
    (Z.ltb_spec (sqlite_sequence st) INT64_MAX); try lia; reflexivity.
Qed.

Lemma serve_GET_recipe st now i :
  inv st ->
  serve st now (GET_recipe i) =
    (st,
     if in_int64 i then
       match find (fun r => Recipe.id r =? i) (rows st) with
       | Some r => mk_response 200 (single "Recipe details by id" r)
       | None => not_found_response
       end
     else server_error).
Proof.
  intros I. unfold serve. rewrite (get_recipe_detail_spec _ _ I).
  destruct (in_int64 i); [|reflexivity].
  destruct (find _ (rows st)); reflexivity.
Qed.

Lemma serve_PATCH st now i body :
  inv st ->
  serve st now (PATCH_recipe i body) =
    match validate_body body with
    | Raise e => (st, to_response (Raise e))
    | Ok recipe_update =>
        if in_int64 i then
          match find (fun r => Recipe.id r =? i) (rows st) with
          | None => (st, not_found_response)
          | Some r =>
              if bindable recipe_update then
                (mk_db (patched now recipe_update i (rows st)) (sqlite_sequence st),
                 mk_response 200
                   (single "Recipe successfully updated!"
                      (updated_row now recipe_update r)))
              else (st, server_error)
          end
        else (st, server_error)
    end.
Proof.
  intros I. unfold serve.
  destruct (validate_body body) as [recipe_update|e]; [|reflexivity].
  rewrite (update_recipe_spec _ _ _ _ I).
  destruct (in_int64 i); [|reflexivity].
  destruct (find _ (rows st)); [|reflexivity].
  destruct (bindable recipe_update); [reflexivity|].
  now rewrite to_response_bind_failure.
Qed.

Lemma serve_DELETE st now i :
  inv st ->
  serve st now (DELETE_recipe i) =
    if in_int64 i then
      match find (fun r => Recipe.id r =? i) (rows st) with
      | None => (st, not_found_response)
      | Some _ =>
          (mk_db (filter (fun r => negb (Recipe.id r =? i)) (rows st))
                 (sqlite_sequence st),
           mk_response 200
             (JObj [("message"%string, JStr "Recipe successfully removed!")]))
      end
    else (st, server_error).
Proof.
  intros I. unfold serve. rewrite (delete_recipe_spec _ _ I).
  destruct (in_int64 i); [|reflexivity].
  destruct (find _ (rows st)); reflexivity.
Qed.

(** ** The invariant holds in every reachable state *)

Lemma populated_new_row i now recipe :
  in_int64 (cost recipe) = true -> populated (new_row i now recipe) = true.
Proof. intros H. unfold populated, new_row. simpl. now rewrite H. Qed.

Lemma populated_updated_row now recipe_update r :
  in_int64 (cost recipe_update) = true -> populated r = true ->
  populated (updated_row now recipe_update r) = true.
Proof.
  unfold populated, updated_row. simpl. intros ->.
  rewrite !andb_true_iff. tauto.
Qed.

Lemma inv_create_recipe st now recipe :
  inv st -> inv (fst (create_recipe st now recipe)).
Proof.
  intros I. rewrite (create_recipe_spec _ _ _ I).
  destruct (bindable recipe) eqn:Hc; [|exact I].
  apply bindable_cost in Hc.
  destruct (Z.leb_spec INT64_MAX (sqlite_sequence st)) as [Hfull|Hroom]; [exact I|].
  pose proof (inv_seq _ I) as Hseq.
  constructor; db_simpl.
  - reflexivity.
  - apply sorted_ids_last; [apply (inv_sorted _ I)|apply (inv_below_next _ I)].
  - apply Forall_app. split.
    + eapply Forall_impl; [|apply (inv_ids _ I)]. simpl. lia.
    + repeat constructor; simpl; lia.
  - lia.
  - apply Forall_app. split; [apply (inv_populated _ I)|].
    repeat constructor. now apply populated_new_row.
Qed.

Lemma inv_update_recipe st now i recipe_update :
  inv st -> inv (fst (update_recipe st now i recipe_update)).
Proof.
  intros I. rewrite (update_recipe_spec _ _ _ _ I).
  destruct (in_int64 i); [|exact I].
  destruct (find _ (rows st)); [|exact I].
  destruct (bindable recipe_update) eqn:Hc; [|exact I].
  apply bindable_cost in Hc.
  constructor; db_simpl.
  - reflexivity.
  - unfold patched. rewrite ids_updated by reflexivity. apply (inv_sorted _ I).
  - unfold patched. apply Forall_map.
    eapply Forall_impl; [|apply (inv_ids _ I)]. simpl.
    intros r Hr. destruct (Recipe.id r =? i); exact Hr.
  - apply (inv_seq _ I).
  - unfold patched. apply Forall_map.
    eapply Forall_impl; [|apply (inv_populated _ I)]. simpl.
    intros r Hr. destruct (Recipe.id r =? i); [|exact Hr].
    now apply populated_updated_row.
Qed.

Lemma inv_delete_recipe st i : inv st -> inv (fst (delete_recipe st i)).
Proof.
  intros I. rewrite (delete_recipe_spec _ _ I).
  destruct (in_int64 i); [|exact I].
  destruct (find _ (rows st)); [|exact I].
  constructor; db_simpl.
  - reflexivity.
  - apply sorted_ids_deleted, (inv_sorted _ I).
  - apply incl_Forall with (l1 := rows st); [apply incl_filter|apply (inv_ids _ I)].
  - apply (inv_seq _ I).
  - apply incl_Forall with (l1 := rows st); [apply incl_filter|apply (inv_populated _ I)].
Qed.

Lemma inv_serve st now rq : inv st -> inv (fst (serve st now rq)).
Proof.
  intros I. destruct rq as [|body|i|i body|i]; simpl; try exact I.
  - destruct (validate_body body) as [recipe|e]; [|exact I].
    pose proof (inv_create_recipe st now recipe I) as H.
    destruct (create_recipe st now recipe). exact H.
  - destruct (validate_body body) as [recipe|e]; [|exact I].
    pose proof (inv_update_recipe st now i recipe I) as H.
    destruct (update_recipe st now i recipe). exact H.
  - pose proof (inv_delete_recipe st i I) as H.
    destruct (delete_recipe st i). exact H.
Qed.

Lemma inv_reachable st : reachable st -> inv st.
Proof.
  induction 1 as [st0 st H|st now rq _ IH].
  - rewrite init_db_seeded in H. injection H as <-. exact inv_seeded.
  - now apply inv_serve.
Qed.

Lemma reachable_run st trace : reachable st -> reachable (run st trace).
Proof.
  revert st. induction trace as [|[now rq] rest IH]; simpl; intros st H; [exact H|].
  apply IH. now constructor.
Qed.

Lemma reachable_seeded : reachable seeded.
Proof. apply reachable_startup with (st0 := None). reflexivity. Qed.

(** ** Request bodies *)


(** The validator raises nothing but its own error. *)
Lemma validate_body_raises body e :
  validate_body body = Raise e -> exists errors, e = RequestValidationError errors.
Proof.
  destruct body as [| | | | | |members]; simpl;
    try (intros [= <-]; eexists; reflexivity).
  destruct (validate_str "title" members), (validate_str "making_time" members),
    (validate_str "serves" members), (validate_str "ingredients" members),
    (validate_int "cost" members);
    intros H; try discriminate H; injection H as <-; eexists; reflexivity.
Qed.

(** ** Timestamps *)

(** A year of four digits is printed as its four digits. *)
Lemma year_text_four_digits n :
  1000 <= Z.of_nat n <= 9999 -> year_text n = zero_padded4 n.
Proof.
  intros Hn.
  assert (H : forallb (fun y => (year_text y =? zero_padded4 y)%string)
                      (seq 1000 (9 * 1000)) = true) by (vm_compute; reflexivity).
  rewrite forallb_forall in H. apply String.eqb_eq, H, in_seq. lia.
Qed.


Lemma string_compare_refl s : String.compare s s = Eq.
Proof.
  induction s as [|c s IH]; simpl; [reflexivity|].
  unfold Ascii.compare. now rewrite N.compare_refl.
Qed.


(** ** Ids given out along a run *)

(** A request either gives out no id and leaves the sequence where it
    was, or gives out the next id and advances the sequence to it. *)
Lemma created_id_serve st now rq :
  inv st ->
  (created_id rq (snd (serve st now rq)) = None
   /\ sqlite_sequence (fst (serve st now rq)) = sqlite_sequence st)
  \/ (created_id rq (snd (serve st now rq)) = Some (sqlite_sequence st + 1)
      /\ sqlite_sequence (fst (serve st now rq)) = sqlite_sequence st + 1).
Proof.
  intros I. destruct rq as [|body|i|i body|i].
  - left. split; reflexivity.
  - rewrite (serve_POST _ _ _ I).
    destruct (validate_body body) as [recipe|e] eqn:Hv.
    + destruct (bindable recipe && (sqlite_sequence st <? INT64_MAX));
        [right|left]; split; reflexivity.
    + left. split; [|reflexivity].
      destruct (validate_body_raises _ _ Hv) as [errors ->]. reflexivity.
  - left. split; reflexivity.
  - left. split; [reflexivity|]. rewrite (serve_PATCH _ _ _ _ I).
    destruct (validate_body body) as [recipe|e]; [|reflexivity].
    destruct (in_int64 i); [|reflexivity].
    destruct (find _ (rows st)); [|reflexivity].
    destruct (bindable recipe); reflexivity.
  - left. split; [reflexivity|]. rewrite (serve_DELETE _ _ _ I).
    destruct (in_int64 i); [|reflexivity].
    destruct (find _ (rows st)); reflexivity.
Qed.

Lemma created_ids_increase st trace :
  inv st ->
  sqlite_sequence st <= sqlite_sequence (run st trace)
  /\ Forall (fun i => sqlite_sequence st < i <= sqlite_sequence (run st trace))
            (created_ids st trace)
  /\ StronglySorted Z.lt (created_ids st trace).
Proof.
  revert st. induction trace as [|[now rq] rest IH]; simpl; intros st I.
  - repeat split; try constructor. lia.
  - pose proof (created_id_serve st now rq I) as Hstep.
    pose proof (inv_serve st now rq I) as I'.
    destruct (serve st now rq) as [st' r]. simpl in *.
    destruct (IH st' I') as (Hle & Hall & Hsorted).
    destruct Hstep as [[-> Hseq]|[-> Hseq]]; rewrite Hseq in *.
    + repeat split; assumption.
    + repeat split.
      * lia.
      * constructor; [lia|]. eapply Forall_impl; [|exact Hall]. simpl. lia.
      * constructor; [assumption|].
        eapply Forall_impl; [|exact Hall]. simpl. lia.
Qed.

Lemma issued_ids_sorted trace :
  StronglySorted Z.lt (issued_ids seeded trace)
  /\ Forall (fun i => i <= sqlite_sequence (run seeded trace)) (issued_ids seeded trace).
Proof.
  destruct (created_ids_increase seeded trace inv_seeded) as (Hle & Hall & Hsorted).
  unfold issued_ids. change (ids (rows seeded)) with [1; 2]. simpl in *. split.
  - constructor; [constructor; [assumption|]|].
    + eapply Forall_impl; [|exact Hall]. simpl. lia.
    + constructor; [lia|]. eapply Forall_impl; [|exact Hall]. simpl. lia.
  - repeat (constructor; [lia|]). eapply Forall_impl; [|exact Hall]. simpl. lia.
Qed.

(** Creates alone drive the sequence to its end: each one advances it by
    one, and once it stands at the largest 64-bit integer the next create
    is answered with a 500. *)
Lemma sequence_after_creates st n :
  inv st -> sqlite_sequence st + Z.of_nat n <= INT64_MAX ->
  sqlite_sequence (run st (repeat (t0, POST_recipes payload) n))
  = sqlite_sequence st + Z.of_nat n.
Proof.
  revert st. induction n as [|n IH]; intros st I Hroom.
  - simpl. lia.
  - cbn [repeat run].
    assert (Hstep : sqlite_sequence (fst (serve st t0 (POST_recipes payload)))
                    = sqlite_sequence st + 1).
    { rewrite (serve_POST _ _ _ I). change (validate_body payload)
        with (Ok (mk_RecipeCreate "T" "10 min" "2" "a,b" 5)).
      cbv beta iota.
      change (bindable (mk_RecipeCreate "T" "10 min" "2" "a,b" 5)) with true.
      destruct (Z.ltb_spec (sqlite_sequence st) INT64_MAX); [reflexivity|lia]. }
    rewrite IH; [lia|now apply inv_serve|lia].
Qed.

Lemma sequence_runs_out :
  exists trace,
    reachable (run seeded trace)
    /\ sqlite_sequence (run seeded trace) = INT64_MAX
    /\ serve (run seeded trace) t0 (POST_recipes payload)
       = (run seeded trace, server_error).
Proof.
  assert (Hlen : exists n, Z.of_nat n = INT64_MAX - 2).
  { exists (Z.to_nat (INT64_MAX - 2)). apply Z2Nat.id. unfold INT64_MAX. lia. }
  destruct Hlen as [n Hn].
  exists (repeat (t0, POST_recipes payload) n).
  assert (Hreach : reachable (run seeded (repeat (t0, POST_recipes payload) n)))
    by apply reachable_run, reachable_seeded.
  assert (Hseq : sqlite_sequence (run seeded (repeat (t0, POST_recipes payload) n))
                 = INT64_MAX).
  { rewrite sequence_after_creates; [|exact inv_seeded|];
      change (sqlite_sequence seeded) with 2; lia. }
  split; [exact Hreach|split; [exact Hseq|]].
  rewrite (serve_POST _ _ _ (inv_reachable _ Hreach)).
  change (validate_body payload)
    with (Ok (mk_RecipeCreate "T" "10 min" "2" "a,b" 5)).
  cbv beta iota.
  change (bindable (mk_RecipeCreate "T" "10 min" "2" "a,b" 5)) with true.
  rewrite Hseq, Z.ltb_irrefl. reflexivity.
Qed.

(** ** Rejected and trimmed request bodies *)







(** ** One request at a time *)







(** What the three single-item routes answer on success. *)
Lemma serve_single st now rq :
  inv st ->
  status (snd (serve st now rq)) = 200 ->
  match rq with
  | GET_recipes | DELETE_recipe _ => True
  | _ =>
      exists message r,
        In r (rows (fst (serve st now rq)))
        /\ content (snd (serve st now rq)) = single message r
  end.
Proof.
  intros I. destruct rq as [|body|i|i body|i]; auto.
  - rewrite (serve_POST _ _ _ I).
    destruct (validate_body body) as [recipe|e] eqn:Hv.
    + destruct (bindable recipe && (sqlite_sequence st <? INT64_MAX)); [|discriminate].
      intros _. eexists _, _. split; [|reflexivity].
      db_simpl. apply in_or_app. right. left. reflexivity.
    + destruct (validate_body_raises _ _ Hv) as [errors ->]. discriminate.
  - rewrite (serve_GET_recipe _ _ _ I). cbn [fst snd].
    destruct (in_int64 i); [|discriminate].
    destruct (find _ (rows st)) as [r|] eqn:Hf; [|discriminate].
    intros _. exists "Recipe details by id"%string, r. split; [|reflexivity].
    apply find_some_id in Hf. tauto.
  - rewrite (serve_PATCH _ _ _ _ I).
    destruct (validate_body body) as [recipe|e] eqn:Hv.
    + destruct (in_int64 i); [|discriminate].
      destruct (find _ (rows st)) as [r|] eqn:Hf; [|discriminate].
      destruct (bindable recipe); [|discriminate].
      intros _. eexists _, _. split; [|reflexivity].
      db_simpl. apply find_some_id in Hf. destruct Hf as [Hin Hid].
      unfold patched. apply in_map_iff. exists r. split; [|exact Hin].
      apply Z.eqb_eq in Hid. now rewrite Hid.
    + destruct (validate_body_raises _ _ Hv) as [errors ->]. discriminate.
Qed.

(** ** dict_factory *)

Section Dicts.

Implicit Types (d : list (string * json)) (k : string) (v : json).

Lemma dict_get_absent k d : ~ In k (map fst d) -> dict_get k d = None.
Proof.
  induction d as [|[k0 v0] d IH]; simpl; intros H; [reflexivity|].
  rewrite IH by tauto.
  destruct (String.eqb_spec k0 k); [tauto|reflexivity].
Qed.

Lemma dict_set_keys k v d x :
  In x (map fst (dict_set k v d)) <-> x = k \/ In x (map fst d).
Proof.
  induction d as [|[k0 v0] d IH]; simpl; [intuition congruence|].
  destruct (String.eqb_spec k0 k) as [->|Hne]; simpl; [intuition congruence|].
  rewrite IH. intuition congruence.
Qed.

Lemma dict_set_NoDup k v d : NoDup (map fst d) -> NoDup (map fst (dict_set k v d)).
Proof.
  induction d as [|[k0 v0] d IH]; simpl; intros H.
  - repeat constructor. intros [].
  - inversion H as [|? ? Hk0 Hd]; subst.
    destruct (String.eqb_spec k0 k) as [->|Hne]; simpl; constructor; auto.
    rewrite dict_set_keys. intuition congruence.
Qed.

Lemma dict_get_dict_set k k' v d :
  NoDup (map fst d) ->
  dict_get k' (dict_set k v d) = if (k =? k')%string then Some v else dict_get k' d.
Proof.
  induction d as [|[k0 v0] d IH]; simpl; intros H; [reflexivity|].
  inversion H as [|? ? Hk0 Hd]; subst.
  destruct (String.eqb_spec k0 k) as [->|Hne]; simpl.
  - destruct (String.eqb_spec k k') as [<-|Hne'].
    + now rewrite dict_get_absent.
    + reflexivity.
  - rewrite IH by assumption.
    destruct (String.eqb_spec k k') as [<-|Hne']; [reflexivity|reflexivity].
Qed.

Lemma dict_set_new k v d : ~ In k (map fst d) -> dict_set k v d = d ++ [(k, v)].
Proof.
  induction d as [|[k0 v0] d IH]; simpl; intros H; [reflexivity|].
  destruct (String.eqb_spec k0 k); [tauto|]. rewrite IH by tauto. reflexivity.
Qed.

Lemma dict_factory_loop_lookup description :
  forall row d,
    (List.length description <= List.length row)%nat ->
    NoDup (map fst d) ->
    exists d',
      dict_factory_loop description row d = Some d'
      /\ NoDup (map fst d')
      /\ forall k,
           dict_get k d'
           = match dict_get k (combine description (map json_of_sqlval row)) with
             | Some x => Some x
             | None => dict_get k d
             end.
Proof.
  induction description as [|col description IH]; intros row d Hlen Hd.
  - exists d. simpl. auto.
  - destruct row as [|v row]; simpl in Hlen; [lia|].
    destruct (IH row (dict_set col (json_of_sqlval v) d)) as (d' & Hrun & Hnd & Hget).
    + lia.
    + now apply dict_set_NoDup.
    + exists d'. split; [exact Hrun|split; [exact Hnd|]].
      intros k. rewrite Hget. simpl.
      destruct (dict_get k (combine description (map json_of_sqlval row)));
        [reflexivity|].
      rewrite dict_get_dict_set by assumption.
      destruct (col =? k)%string; reflexivity.
Qed.

Lemma dict_factory_loop_distinct description :
  forall row d,
    (List.length description <= List.length row)%nat ->
    NoDup (map fst d ++ description) ->
    dict_factory_loop description row d
    = Some (d ++ combine description (map json_of_sqlval row)).
Proof.
  induction description as [|col description IH]; intros row d Hlen Hd.
  - simpl. now rewrite app_nil_r.
  - destruct row as [|v row]; simpl in Hlen; [lia|]. simpl.
    assert (Hcol : ~ In col (map fst d)).
    { intros H. apply NoDup_remove_2 in Hd. apply Hd, in_or_app. now left. }
    rewrite dict_set_new by exact Hcol. rewrite IH.
    + now rewrite <- app_assoc.
    + lia.
    + rewrite map_app, <- app_assoc. exact Hd.
Qed.

Lemma dict_factory_loop_short description :
  forall row d,
    (List.length row < List.length description)%nat ->
    dict_factory_loop description row d = None.
Proof.
  induction description as [|col description IH]; intros row d Hlen;
    simpl in Hlen; [lia|].
  destruct row as [|v row]; simpl; [reflexivity|]. apply IH. simpl in Hlen. lia.
Qed.

End Dicts.

(** ** get_current_time *)

Ltac euclid := zify; Z.to_euclidean_division_equations; lia.

Lemma compare_digit a b :
  Ascii.compare (digit a) (digit b) = (a mod 10 ?= b mod 10)%nat.
Proof.
  unfold Ascii.compare, digit.
  assert (Ha : (a mod 10 < 10)%nat) by (apply Nat.mod_upper_bound; lia).
  assert (Hb : (b mod 10 < 10)%nat) by (apply Nat.mod_upper_bound; lia).
  generalize dependent (a mod 10)%nat. generalize dependent (b mod 10)%nat.
  intros y Hy x Hx.
  unfold ascii_of_nat. rewrite !N_ascii_embedding by lia.
  destruct (N.compare_spec (N.of_nat (48 + x)) (N.of_nat (48 + y))),
    (Nat.compare_spec x y); try reflexivity; lia.
Qed.

Lemma and_then_compare a a' b b' n rest :
  (b < n)%nat -> (b' < n)%nat ->
  and_then (a ?= a')%nat (and_then (b ?= b')%nat rest)
  = and_then (a * n + b ?= a' * n + b')%nat rest.
Proof.
  intros Hb Hb'. unfold and_then.
  destruct (Nat.compare_spec a a'), (Nat.compare_spec b b'),
    (Nat.compare_spec (a * n + b) (a' * n + b')); try reflexivity; nia.
Qed.

Lemma compare_String c1 c2 s1 s2 :
  String.compare (String c1 s1) (String c2 s2)
  = and_then (Ascii.compare c1 c2) (String.compare s1 s2).
Proof. cbn [String.compare]. destruct (Ascii.compare c1 c2); reflexivity. Qed.

Lemma compare_zero_padded2 n m s1 s2 :
  (n < 100)%nat -> (m < 100)%nat ->
  String.compare (zero_padded2 n ++ s1) (zero_padded2 m ++ s2)
  = and_then (n ?= m)%nat (String.compare s1 s2).
Proof.
  intros Hn Hm. unfold zero_padded2. cbn [append].
  rewrite !compare_String, !compare_digit.
  rewrite (and_then_compare _ _ _ _ 10%nat) by (apply Nat.mod_upper_bound; lia).
  replace ((n / 10) mod 10 * 10 + n mod 10)%nat with n by euclid.
  replace ((m / 10) mod 10 * 10 + m mod 10)%nat with m by euclid.
  reflexivity.
Qed.

Lemma compare_zero_padded4 n m s1 s2 :
  Z.of_nat n <= 9999 -> Z.of_nat m <= 9999 ->
  String.compare (zero_padded4 n ++ s1) (zero_padded4 m ++ s2)
  = and_then (n ?= m)%nat (String.compare s1 s2).
Proof.
  intros Hn Hm. unfold zero_padded4, zero_padded2. cbn [append].
  rewrite !compare_String, !compare_digit.
  rewrite !(and_then_compare _ _ _ _ 10%nat) by (apply Nat.mod_upper_bound; lia).
  replace ((((n / 1000) mod 10 * 10 + (n / 100) mod 10) * 10 + (n / 10) mod 10) * 10
           + n mod 10)%nat with n by euclid.
  replace ((((m / 1000) mod 10 * 10 + (m / 100) mod 10) * 10 + (m / 10) mod 10) * 10
           + m mod 10)%nat with m by euclid.
  reflexivity.
Qed.

Lemma compare_separator c s1 s2 :
  String.compare (String c s1) (String c s2) = String.compare s1 s2.
Proof.
  rewrite compare_String. unfold Ascii.compare. now rewrite N.compare_refl.
Qed.

Lemma append_empty s : (s ++ "")%string = s.
Proof. induction s as [|c s IH]; simpl; [reflexivity|now rewrite IH]. Qed.

Lemma and_then_Eq c : and_then c Eq = c.
Proof. destruct c; reflexivity. Qed.

Lemma compare_get_current_time d1 d2 :
  valid_datetime d1 -> valid_datetime d2 ->
  String.compare (get_current_time d1) (get_current_time d2) = chronological d1 d2.
Proof.
  intros (Hy1 & Hmo1 & Hd1 & Hh1 & Hmi1 & Hs1) (Hy2 & Hmo2 & Hd2 & Hh2 & Hmi2 & Hs2).
  unfold get_current_time, strftime, chronological.
  rewrite !year_text_four_digits by assumption.
  rewrite <- (append_empty (zero_padded2 (second d1))).
  rewrite <- (append_empty (zero_padded2 (second d2))).
  rewrite compare_zero_padded4 by lia. cbn [append]. rewrite compare_separator.
  rewrite compare_zero_padded2 by lia. cbn [append]. rewrite compare_separator.
  rewrite compare_zero_padded2 by lia. cbn [append]. rewrite compare_separator.
  rewrite compare_zero_padded2 by lia. cbn [append]. rewrite compare_separator.
  rewrite compare_zero_padded2 by lia. cbn [append]. rewrite compare_separator.
  rewrite compare_zero_padded2 by lia. cbn [String.compare].
  now rewrite and_then_Eq.
Qed.

Lemma chronological_Eq d1 d2 : chronological d1 d2 = Eq -> d1 = d2.
Proof.
  destruct d1 as [y1 mo1 dd1 h1 mi1 s1], d2 as [y2 mo2 dd2 h2 mi2 s2].
  unfold chronological, and_then. simpl.
  destruct (Nat.compare_spec y1 y2); try discriminate.
  destruct (Nat.compare_spec mo1 mo2); try discriminate.
  destruct (Nat.compare_spec dd1 dd2); try discriminate.
  destruct (Nat.compare_spec h1 h2); try discriminate.
  destruct (Nat.compare_spec mi1 mi2); try discriminate.
  destruct (Nat.compare_spec s1 s2); try discriminate.
  intros _. congruence.
Qed.

(** ** The routes, case by case *)

Lemma inv_state st : inv st -> st = mk_db (rows st) (sqlite_sequence st).
Proof.
  intros I. pose proof (inv_table _ I) as H.
  destruct st as [[t n]|]; [reflexivity|discriminate H].
Qed.

Lemma find_stored t i r :
  find (fun r => Recipe.id r =? i) t = Some r -> In i (ids t).
Proof.
  intros H. apply find_some_id in H. destruct H as [Hin <-]. now apply in_map.
Qed.

Lemma find_not_stored t i :
  find (fun r => Recipe.id r =? i) t = None -> ~ In i (ids t).
Proof.
  intros H Hin. unfold ids in Hin. apply in_map_iff in Hin.
  destruct Hin as (r & Hid & Hr).
  apply (find_none _ _ H) in Hr. simpl in Hr. rewrite Hid, Z.eqb_refl in Hr.
  discriminate Hr.
Qed.

Lemma stored_in_range st i : inv st -> In i (ids (rows st)) -> in_int64 i = true.
Proof.
  intros I Hin. unfold ids in Hin. apply in_map_iff in Hin.
  destruct Hin as (r & <- & Hr).
  pose proof (inv_ids _ I) as Hids. rewrite Forall_forall in Hids.
  specialize (Hids _ Hr). pose proof (inv_seq _ I).
  apply in_int64_bounds. unfold INT64_MIN. lia.
Qed.

(** The three ways a request can fail exclude one another. *)
Lemma rejected_not_fails st rq : body_rejected rq -> ~ statement_fails st rq.
Proof.
  destruct rq; simpl; try tauto; intros [errors H] (u & Hu & _); congruence.
Qed.

Lemma rejected_not_nothing st rq : body_rejected rq -> ~ addresses_nothing st rq.
Proof.
  destruct rq; simpl; try tauto. intros [errors H] [[u Hu] _]. congruence.
Qed.

Lemma nothing_not_fails st rq :
  inv st -> addresses_nothing st rq -> ~ statement_fails st rq.
Proof.
  intros I. destruct rq; simpl; try tauto.
  - intros [H _] H'. congruence.
  - intros (_ & Hi & Hout) (u & _ & [H|[H _]]); [congruence|tauto].
  - intros [H _] H'. congruence.
Qed.

(** Every request ends in exactly one of four ways. *)
Lemma serve_outcome st now rq :
  inv st ->
  (status (snd (serve st now rq)) = 200
   /\ ~ body_rejected rq /\ ~ addresses_nothing st rq /\ ~ statement_fails st rq)
  \/ (body_rejected rq
      /\ status (snd (serve st now rq)) = 400 /\ fst (serve st now rq) = st)
  \/ (addresses_nothing st rq
      /\ serve st now rq = (st, not_found_response))
  \/ (statement_fails st rq
      /\ serve st now rq = (st, server_error)).
Proof.
  intros I. pose proof (inv_seq _ I) as Hseq.
  destruct rq as [|body|i|i body|i].
  - left. rewrite (serve_GET_recipes _ _ I). simpl. tauto.
  - rewrite (serve_POST _ _ _ I). simpl.
    destruct (validate_body body) as [recipe|e] eqn:Hv.
    + destruct (bindable recipe) eqn:Hc;
        [destruct (Z.ltb_spec (sqlite_sequence st) INT64_MAX) as [Hroom|Hfull]|];
        simpl.
      * left. repeat split; try tauto.
        -- intros [errors H]. discriminate H.
        -- intros (u & [= <-] & [H|H]); [congruence|lia].
      * right. right. right. split; [|reflexivity].
        exists recipe. split; [reflexivity|]. right. lia.
      * right. right. right. split; [|reflexivity].
        exists recipe. split; [reflexivity|]. now left.
    + destruct (validate_body_raises _ _ Hv) as [errors ->].
      right. left. simpl. repeat split. now exists errors.
  - rewrite (serve_GET_recipe _ _ _ I). simpl.
    destruct (in_int64 i) eqn:Hi.
    + destruct (find _ (rows st)) as [r|] eqn:Hf.
      * left. simpl. repeat split; try tauto; try congruence.
        intros [_ H]. apply H. eapply find_stored, Hf.
      * right. right. left. split; [|reflexivity].
        split; [reflexivity|]. now apply find_not_stored.
    + right. right. right. split; reflexivity.
  - rewrite (serve_PATCH _ _ _ _ I). simpl.
    destruct (validate_body body) as [u|e] eqn:Hv.
    + destruct (in_int64 i) eqn:Hi.
      * destruct (find _ (rows st)) as [r|] eqn:Hf.
        -- destruct (bindable u) eqn:Hc.
           ++ left. simpl. repeat split.
              ** intros [errors H]. discriminate H.
              ** intros (_ & _ & H). apply H. eapply find_stored, Hf.
              ** intros (u' & [= <-] & [H|[_ H]]); congruence.
           ++ right. right. right. split; [|reflexivity].
              exists u. split; [reflexivity|]. right.
              split; [eapply find_stored, Hf|exact Hc].
        -- right. right. left. split; [|reflexivity].
           split; [now exists u|]. split; [reflexivity|].
           now apply find_not_stored.
      * right. right. right. split; [|reflexivity].
        exists u. split; [reflexivity|]. now left.
    + destruct (validate_body_raises _ _ Hv) as [errors ->].
      right. left. simpl. repeat split. now exists errors.
  - rewrite (serve_DELETE _ _ _ I). simpl.
    destruct (in_int64 i) eqn:Hi.
    + destruct (find _ (rows st)) as [r|] eqn:Hf.
      * left. simpl. repeat split; try tauto; try congruence.
        intros [_ H]. apply H. eapply find_stored, Hf.
      * right. right. left. split; [|reflexivity].
        split; [reflexivity|]. now apply find_not_stored.
    + right. right. right. split; reflexivity.
Qed.

Lemma member_id_dict_factory r :
  member "id" (dict_factory r) = Some (JInt (Recipe.id r)).
Proof. reflexivity. Qed.

Lemma the_recipe_single message r :
  the_recipe (mk_response 200 (single message r)) = Some (dict_factory r).
Proof. reflexivity. Qed.

Lemma listed_GET_recipes st now :
  inv st -> listed (snd (serve st now GET_recipes)) = map dict_factory (rows st).
Proof. intros I. now rewrite (serve_GET_recipes _ _ I). Qed.

Lemma find_patched n u i t :
  find (fun r => Recipe.id r =? i) (patched n u i t)
  = option_map (updated_row n u) (find (fun r => Recipe.id r =? i) t).
Proof. unfold patched. apply find_updated. reflexivity. Qed.

Lemma patched_patched n1 u1 n2 u2 i t :
  patched n2 u2 i (patched n1 u1 i t) = patched n2 u2 i t.
Proof.
  unfold patched. rewrite map_map. apply map_ext. intros r.
  destruct (Recipe.id r =? i) eqn:E; [|now rewrite E].
  cbn [updated_row Recipe.id]. now rewrite E.
Qed.

Lemma filter_swap {A : Type} (f g : A -> bool) (l : list A) :
  filter f (filter g l) = filter g (filter f l).
Proof.
  induction l as [|x l IH]; simpl; [reflexivity|].
  destruct (f x) eqn:Hf, (g x) eqn:Hg; simpl; rewrite ?Hf, ?Hg, IH; reflexivity.
Qed.

(** DELETE leaves the table without the rows of that id, whatever it
    answers. *)
Lemma delete_state st now i :
  inv st ->
  fst (serve st now (DELETE_recipe i))
  = mk_db (filter (fun r => negb (Recipe.id r =? i)) (rows st)) (sqlite_sequence st).
Proof.
  intros I. rewrite (serve_DELETE _ _ _ I).
  assert (Hsame : ~ In i (ids (rows st)) ->
            st = mk_db (filter (fun r => negb (Recipe.id r =? i)) (rows st))
                       (sqlite_sequence st)).
  { intros Hout. rewrite delete_absent; [now apply inv_state|].
    apply Forall_forall. intros r Hr E. apply Hout. rewrite <- E. now apply in_map. }
  destruct (in_int64 i) eqn:Hi.
  - destruct (find _ (rows st)) eqn:Hf; [reflexivity|].
    apply Hsame. now apply find_not_stored.
  - apply Hsame. intros Hin. rewrite (stored_in_range _ _ I Hin) in Hi. discriminate Hi.
Qed.

Lemma sequence_bound st trace :
  inv st ->
  sqlite_sequence (run st trace) <= sqlite_sequence st + Z.of_nat (List.length trace).
Proof.
  revert st. induction trace as [|[now rq] rest IH]; intros st I.
  - simpl. lia.
  - cbn [run List.length]. specialize (IH _ (inv_serve st now rq I)).
    destruct (created_id_serve st now rq I) as [[_ E]|[_ E]]; rewrite E in IH; lia.
Qed.

(** ** Requests as they arrive *)









(** A request is turned away by the framework, with a 400 and no change
    of storage, or it is one call of a route. *)
Lemma handle_serve st now rq st' r :
  handle st now rq = Some (st', r) ->
  (st' = st /\ status r = 400) \/ exists call, serve st now call = (st', r).
Proof.
  destruct rq as [|body|segment|segment body|segment]; cbn [handle].
  - intros H. right. exists GET_recipes. congruence.
  - destruct (loadable body).
    + intros H. right. exists (POST_recipes body). congruence.
    + intros [= <- <-]. left. split; reflexivity.
  - destruct (matched segment); [|discriminate].
    destruct (path_int segment) as [e|i].
    + intros [= <- <-]. left. split; reflexivity.
    + intros H. right. exists (GET_recipe i). congruence.
  - destruct (matched segment); [|discriminate].
    destruct (loadable body); [|intros [= <- <-]; left; split; reflexivity].
    destruct (path_int segment) as [e|i].
    + intros [= <- <-]. left. split; reflexivity.
    + intros H. right. exists (PATCH_recipe i body). congruence.
  - destruct (matched segment); [|discriminate].
    destruct (path_int segment) as [e|i].
    + intros [= <- <-]. left. split; reflexivity.
    + intros H. right. exists (DELETE_recipe i). congruence.
Qed.

Lemma handle_reachable st now rq st' r :
  reachable st -> handle st now rq = Some (st', r) -> reachable st'.
Proof.
  intros Hreach H. destruct (handle_serve _ _ _ _ _ H) as [[-> _]|[call Hcall]].
  - exact Hreach.
  - change st' with (fst (st', r)). rewrite <- Hcall. now constructor.
Qed.



(** * The claims *)

(** C1: whatever the database file held before, after [init_db] the list
    route returns exactly the two seed recipes, ids 1 and 2, with the fixed
    field values and timestamps. *)
Theorem seed_invariant : forall (st0 : db) (now : datetime),
  exists st,
    init_db st0 = Ok st /\
    serve st now GET_recipes =
      (st,
       mk_response 200
         (JObj [("recipes",
                 JArr [ JObj [ ("id", JInt 1); ("title", JStr "チキンカレー");
                               ("making_time", JStr "45分"); ("serves", JStr "4人");
                               ("ingredients", JStr "玉ねぎ,肉,スパイス");
                               ("cost", JInt 1000);
                               ("created_at", JStr "2016-01-10 12:10:12");
                               ("updated_at", JStr "2016-01-10 12:10:12") ];
                        JObj [ ("id", JInt 2); ("title", JStr "オムライス");
                               ("making_time", JStr "30分"); ("serves", JStr "2人");
                               ("ingredients", JStr "玉ねぎ,卵,スパイス,醤油");
                               ("cost", JInt 700);
                               ("created_at", JStr "2016-01-11 13:10:12");
                               ("updated_at", JStr "2016-01-11 13:10:12") ] ])]))%string.
Proof.
  intros st0 now. exists seeded. split.
  - apply init_db_seeded.
  - reflexivity.
Qed.










(** C5: in any state reached after startup, DELETE /recipes/{id} on the id
    of a stored recipe answers 200 with the envelope
    {"message": "Recipe successfully removed!"}, which has no recipe
    member, and removes that row and no other; afterwards GET on that id
    answers 404, and so does a second DELETE, which changes nothing. *)
Theorem delete_then_not_found :
  forall (st : db) (now : datetime) (r : Recipe.t),
    reachable st ->
    In r (rows st) ->
    let st' := fst (serve st now (DELETE_recipe (Recipe.id r))) in
    let answer := snd (serve st now (DELETE_recipe (Recipe.id r))) in
    answer = mk_response 200 (JObj [("message", JStr "Recipe successfully removed!")])%string
    /\ member "recipe" (content answer) = None
    /\ recipes st' = Some (filter (fun x => negb (Recipe.id x =? Recipe.id r)) (rows st))
    /\ (forall x, In x (rows st') <-> In x (rows st) /\ x <> r)
    /\ S (List.length (rows st')) = List.length (rows st)
    /\ sqlite_sequence st' = sqlite_sequence st
    /\ (forall now', serve st' now' (GET_recipe (Recipe.id r)) = (st', not_found_response))
    /\ (forall now', serve st' now' (DELETE_recipe (Recipe.id r)) = (st', not_found_response)).
Proof.
  intros st now r Hreach Hin st' answer.
  pose proof (inv_reachable _ Hreach) as I.
  pose proof (find_present _ _ (inv_sorted _ I) Hin) as Hfind.
  assert (Hid : in_int64 (Recipe.id r) = true).
  { pose proof (inv_ids _ I) as Hids. rewrite Forall_forall in Hids.
    specialize (Hids _ Hin). pose proof (inv_seq _ I).
    apply in_int64_bounds. unfold INT64_MIN. lia. }
  assert (I' : inv st') by (apply inv_serve, I).
  assert (Hserve : serve st now (DELETE_recipe (Recipe.id r)) =
            (mk_db (filter (fun x => negb (Recipe.id x =? Recipe.id r)) (rows st))
                   (sqlite_sequence st),
             mk_response 200 (JObj [("message", JStr "Recipe successfully removed!")])%string)).
  { unfold serve. now rewrite (delete_recipe_spec _ _ I), Hid, Hfind. }
  subst st' answer. rewrite Hserve in *. db_simpl.
  split; [reflexivity|]. split; [reflexivity|]. split; [reflexivity|].
  split; [|split; [|split; [reflexivity|split]]].
  - intros x. rewrite filter_In. split; intros [Hx Hne]; split; try assumption.
    + intros ->. rewrite Z.eqb_refl in Hne. discriminate Hne.
    + destruct (Z.eqb_spec (Recipe.id x) (Recipe.id r)) as [E|E]; [|reflexivity].
      contradiction Hne. exact (same_id_same_row _ _ _ (inv_sorted _ I) Hx Hin E).
  - apply length_deleted; [apply (inv_sorted _ I)|now apply in_map].
  - intros now'. unfold serve.
    rewrite (get_recipe_detail_spec _ _ I'), Hid. db_simpl.
    now rewrite find_deleted.
  - intros now'. unfold serve.
    rewrite (delete_recipe_spec _ _ I'), Hid. db_simpl.
    now rewrite find_deleted.
Qed.

Lemma delete_then_not_found_witness :
  snd (serve seeded t0 (DELETE_recipe 2))
  = mk_response 200 (JObj [("message", JStr "Recipe successfully removed!")])%string.
Proof.
  refine (proj1 (delete_then_not_found seeded t0 seed_2 reachable_seeded _)).
  simpl. auto.
Defined.




(** C7: the ids the storage layer gives out grow strictly.  Along any run
    after startup (creates, deletes and any other requests), the seed ids
    followed by the ids of the created recipes, in the order of creation,
    form a strictly increasing sequence: each new id is larger than every
    id given out before it, so none is ever used twice, whatever was
    deleted in between. *)
Theorem ids_never_reused : forall (st0 : db) (trace : list (datetime * request)),
  exists st,
    init_db st0 = Ok st /\ StronglySorted Z.lt (issued_ids st trace).
Proof.
  intros st0 trace. exists seeded. split.
  - apply init_db_seeded.
  - apply issued_ids_sorted.
Qed.




(** C9: in any state reached after startup, GET /recipes answers 200 with
    all rows as a list under "recipes", and the empty list is such an
    answer (once both seed recipes are deleted); every successful create,
    get-by-id and update answers with a message and, under "recipe", a
    list of exactly one element that is the object of a stored row, never
    the bare object. *)
Theorem response_envelopes :
  (forall st now, reachable st ->
     serve st now GET_recipes =
       (st, mk_response 200 (JObj [("recipes", JArr (map dict_factory (rows st)))])%string))
  /\ (forall now,
        reachable (run seeded [(now, DELETE_recipe 1); (now, DELETE_recipe 2)])
        /\ snd (serve (run seeded [(now, DELETE_recipe 1); (now, DELETE_recipe 2)])
                      now GET_recipes)
           = mk_response 200 (JObj [("recipes", JArr [])])%string)
  /\ (forall st now rq,
        reachable st ->
        status (snd (serve st now rq)) = 200 ->
        match rq with
        | GET_recipes | DELETE_recipe _ => True
        | _ =>
            exists message r,
              In r (rows (fst (serve st now rq)))
              /\ content (snd (serve st now rq))
                 = (JObj [ ("message", JStr message);
                           ("recipe", JArr [dict_factory r]) ])%string
              /\ the_recipe (snd (serve st now rq)) = Some (dict_factory r)
        end).
Proof.
  split; [|split].
  - intros st now Hreach. pose proof (inv_reachable _ Hreach) as I.
    unfold serve, get_recipes, table. now rewrite (inv_table _ I).
  - intros now. split; [apply reachable_run, reachable_seeded|reflexivity].
  - intros st now rq Hreach Hok.
    pose proof (serve_single st now rq (inv_reachable _ Hreach) Hok) as H.
    destruct rq; auto; destruct H as (message & r & Hin & Hc);
      exists message, r; (split; [exact Hin|split; [exact Hc|]]);
      unfold the_recipe; rewrite Hc; reflexivity.
Qed.

Lemma response_envelopes_witness :
  exists message r,
    In r (rows (fst (serve seeded t0 (GET_recipe 2))))
    /\ content (snd (serve seeded t0 (GET_recipe 2)))
       = (JObj [ ("message", JStr message); ("recipe", JArr [dict_factory r]) ])%string
    /\ the_recipe (snd (serve seeded t0 (GET_recipe 2))) = Some (dict_factory r).
Proof.
  exact (proj2 (proj2 response_envelopes) seeded t0 (GET_recipe 2)
           reachable_seeded eq_refl).
Defined.

(** C10, as stated, fails: a client-supplied id written with 4301 digits
    is not ignored.  The body cannot be read, the request is answered 400
    and nothing is stored, while the same body without that member is
    answered 200 and stores a row. *)
Lemma undeclared_member_unreadable :
  declared_only [ ("id"%string, JInt (10 ^ 4300)); ("title"%string, JStr "T");
                  ("making_time"%string, JStr "10 min"); ("serves"%string, JStr "2");
                  ("ingredients"%string, JStr "a,b"); ("cost"%string, JInt 5) ]
  = [ ("title"%string, JStr "T"); ("making_time"%string, JStr "10 min");
      ("serves"%string, JStr "2"); ("ingredients"%string, JStr "a,b");
      ("cost"%string, JInt 5) ]
  /\ handle seeded t0
       (HTTP_POST_recipes
          (JObj [ ("id"%string, JInt (10 ^ 4300)); ("title"%string, JStr "T");
                  ("making_time"%string, JStr "10 min"); ("serves"%string, JStr "2");
                  ("ingredients"%string, JStr "a,b"); ("cost"%string, JInt 5) ]))
     = Some (seeded, body_parse_error)
  /\ option_map (fun a => (rows (fst a), status (snd a)))
       (handle seeded t0
          (HTTP_POST_recipes
             (JObj [ ("title"%string, JStr "T"); ("making_time"%string, JStr "10 min");
                     ("serves"%string, JStr "2"); ("ingredients"%string, JStr "a,b");
                     ("cost"%string, JInt 5) ])))
     = Some ([seed_1; seed_2;
              Recipe.mk 3 (SqlText "T") (SqlText "10 min") (SqlText "2") (SqlText "a,b")
                        (SqlInt 5) (SqlText "2024-10-27 01:59:59")
                        (SqlText "2024-10-27 01:59:59")],
             200).
Proof. repeat split; vm_compute; reflexivity. Qed.



(** * Further properties *)

(** X1: in any state reached after startup, a request that is not
    answered 200 leaves storage exactly as it was. *)
Theorem failed_request_no_write :
  forall (st : db) (now : datetime) (rq : request),
    reachable st ->
    status (snd (serve st now rq)) <> 200 ->
    fst (serve st now rq) = st.
Proof.
  intros st now rq Hreach Hfail.
  destruct (serve_outcome st now rq (inv_reachable _ Hreach))
    as [[H _]|[(_ & _ & H)|[[_ H]|[_ H]]]].
  - contradiction.
  - exact H.
  - now rewrite H.
  - now rewrite H.
Qed.

Lemma failed_request_no_write_witness :
  fst (serve seeded t0 (PATCH_recipe 1 payload_cost_2_63)) = seeded.
Proof.
  apply (failed_request_no_write seeded t0 (PATCH_recipe 1 payload_cost_2_63)
           reachable_seeded).
  vm_compute. discriminate.
Defined.





(** X4: in any state reached after startup, GET /recipes/{id} answers
    with a recipe exactly when GET /recipes lists a recipe of that id, and
    it is that listed recipe. *)
Theorem detail_agrees_with_list :
  forall (st : db) (now now' : datetime) (i : Z) (x : json),
    reachable st ->
    (the_recipe (snd (serve st now (GET_recipe i))) = Some x
     <-> In x (listed (snd (serve st now' GET_recipes)))
         /\ member "id" x = Some (JInt i)).
Proof.
  intros st now now' i x Hreach. pose proof (inv_reachable _ Hreach) as I.
  rewrite (listed_GET_recipes _ _ I), (serve_GET_recipe _ _ _ I). cbn [snd].
  assert (Hlisted : In x (map dict_factory (rows st)) /\ member "id" x = Some (JInt i) ->
            exists r, In r (rows st) /\ Recipe.id r = i /\ x = dict_factory r).
  { intros [Hin Hid]. apply in_map_iff in Hin. destruct Hin as (r & <- & Hr).
    rewrite member_id_dict_factory in Hid. injection Hid as Hid. eauto. }
  destruct (in_int64 i) eqn:Hi.
  - destruct (find _ (rows st)) as [r|] eqn:Hf.
    + rewrite the_recipe_single. apply find_some_id in Hf. destruct Hf as [Hr Hid].
      split.
      * intros [= <-]. split; [now apply in_map|].
        now rewrite member_id_dict_factory, Hid.
      * intros H. destruct (Hlisted H) as (r' & Hr' & Hid' & ->).
        f_equal. f_equal.
        apply (same_id_same_row _ _ _ (inv_sorted _ I) Hr Hr'). congruence.
    + split; [intros H; discriminate H|].
      intros H. destruct (Hlisted H) as (r' & Hr' & Hid' & _).
      exfalso. apply (find_not_stored _ _ Hf). rewrite <- Hid'. now apply in_map.
  - split; [intros H; discriminate H|].
    intros H. destruct (Hlisted H) as (r' & Hr' & Hid' & _).
    assert (Hin : In i (ids (rows st))) by (rewrite <- Hid'; now apply in_map).
    rewrite (stored_in_range _ _ I Hin) in Hi. discriminate Hi.
Qed.

Lemma detail_agrees_with_list_witness :
  the_recipe (snd (serve seeded t0 (GET_recipe 2))) = Some (dict_factory seed_2)
  <-> In (dict_factory seed_2) (listed (snd (serve seeded t0 GET_recipes)))
      /\ member "id" (dict_factory seed_2) = Some (JInt 2).
Proof.
  exact (detail_agrees_with_list seeded t0 t0 2 (dict_factory seed_2) reachable_seeded).
Defined.

(** X5: in any state reached after startup, the recipe a successful
    POST /recipes returns is the one a following GET on its id returns,
    and GET /recipes then lists what it listed before followed by that
    recipe. *)
Theorem create_then_get :
  forall (st : db) (now : datetime) (body : json),
    reachable st ->
    status (snd (serve st now (POST_recipes body))) = 200 ->
    let st' := fst (serve st now (POST_recipes body)) in
    exists x i,
      the_recipe (snd (serve st now (POST_recipes body))) = Some x
      /\ member "id" x = Some (JInt i)
      /\ (forall now', the_recipe (snd (serve st' now' (GET_recipe i))) = Some x)
      /\ (forall now',
            listed (snd (serve st' now' GET_recipes))
            = listed (snd (serve st now' GET_recipes)) ++ [x]).
Proof.
  intros st now body Hreach Hok st'.
  pose proof (inv_reachable _ Hreach) as I.
  assert (I' : inv st') by apply inv_serve, I.
  subst st'. rewrite (serve_POST _ _ _ I) in *.
  destruct (validate_body body) as [recipe|e] eqn:Hv.
  - destruct (bindable recipe && (sqlite_sequence st <? INT64_MAX)) eqn:Hc;
      [|discriminate Hok].
    cbv zeta in *. cbn [fst snd] in *.
    set (r := new_row (sqlite_sequence st + 1) now recipe) in *.
    exists (dict_factory r), (Recipe.id r).
    split; [apply the_recipe_single|]. split; [apply member_id_dict_factory|].
    split; intros now'.
    + rewrite (serve_GET_recipe _ _ _ I'). cbn [snd].
      rewrite (stored_in_range _ _ I').
      * db_simpl. rewrite find_last by apply (inv_below_next _ I).
        apply the_recipe_single.
      * db_simpl. unfold ids. rewrite map_app. apply in_or_app. right. now left.
    + rewrite (listed_GET_recipes _ _ I'), (listed_GET_recipes _ _ I).
      db_simpl. now rewrite map_app.
  - destruct (validate_body_raises _ _ Hv) as [errors ->]. discriminate Hok.
Qed.

Lemma create_then_get_witness :
  exists x i,
    the_recipe (snd (serve seeded t0 (POST_recipes payload))) = Some x
    /\ member "id" x = Some (JInt i)
    /\ (forall now',
          the_recipe (snd (serve (fst (serve seeded t0 (POST_recipes payload)))
                                 now' (GET_recipe i))) = Some x)
    /\ (forall now',
          listed (snd (serve (fst (serve seeded t0 (POST_recipes payload)))
                             now' GET_recipes))
          = listed (snd (serve seeded now' GET_recipes)) ++ [x]).
Proof.
  exact (create_then_get seeded t0 payload reachable_seeded eq_refl).
Defined.



(** X7: a PATCH replaces the whole row, so of two updates of the same id
    the later one decides.  In any state reached after startup, the second
    PATCH is answered as if the first had not been made, and when it
    succeeds storage is what it alone would have left. *)
Theorem last_update_wins :
  forall (st : db) (n1 n2 : datetime) (i : Z) (b1 b2 : json),
    reachable st ->
    let st1 := fst (serve st n1 (PATCH_recipe i b1)) in
    snd (serve st1 n2 (PATCH_recipe i b2)) = snd (serve st n2 (PATCH_recipe i b2))
    /\ (status (snd (serve st n2 (PATCH_recipe i b2))) = 200 ->
        fst (serve st1 n2 (PATCH_recipe i b2)) = fst (serve st n2 (PATCH_recipe i b2))).
Proof.
  intros st n1 n2 i b1 b2 Hreach st1.
  pose proof (inv_reachable _ Hreach) as I.
  assert (I1 : inv st1) by apply inv_serve, I.
  rewrite (serve_PATCH st1 _ _ _ I1), (serve_PATCH st n2 _ _ I).
  subst st1. rewrite (serve_PATCH st n1 _ _ I). clear I1.
  destruct (validate_body b1) as [u1|e1]; [|split; reflexivity].
  destruct (in_int64 i) eqn:Hi; [|cbn [fst]; rewrite ?Hi; split; reflexivity].
  destruct (find _ (rows st)) as [r|] eqn:Hf;
    [|cbn [fst]; rewrite ?Hf; split; reflexivity].
  destruct (bindable u1); [|cbn [fst]; rewrite ?Hf; split; reflexivity].
  db_simpl. rewrite find_patched, Hf. cbn [option_map].
  destruct (validate_body b2) as [u2|e2] eqn:Hv2.
  - destruct (bindable u2); cbn [fst snd].
    + split; [reflexivity|]. intros _. now rewrite patched_patched.
    + split; [reflexivity|]. intros H. discriminate H.
  - destruct (validate_body_raises _ _ Hv2) as [errors ->].
    split; [reflexivity|]. intros H. discriminate H.
Qed.

Lemma last_update_wins_witness :
  fst (serve (fst (serve seeded t0 (PATCH_recipe 1 payload_cost_string)))
             t1 (PATCH_recipe 1 payload))
  = fst (serve seeded t1 (PATCH_recipe 1 payload)).
Proof.
  apply (proj2 (last_update_wins seeded t0 t1 1 payload_cost_string payload
                  reachable_seeded)).
  reflexivity.
Defined.

(** X8: deletes commute.  In any state reached after startup, two
    DELETE requests leave the same storage in either order. *)
Theorem deletes_commute :
  forall (st : db) (n1 n2 n3 n4 : datetime) (i j : Z),
    reachable st ->
    fst (serve (fst (serve st n1 (DELETE_recipe i))) n2 (DELETE_recipe j))
    = fst (serve (fst (serve st n3 (DELETE_recipe j))) n4 (DELETE_recipe i)).
Proof.
  intros st n1 n2 n3 n4 i j Hreach. pose proof (inv_reachable _ Hreach) as I.
  rewrite !delete_state by (try apply inv_serve; exact I).
  db_simpl. now rewrite filter_swap.
Qed.

Lemma deletes_commute_witness :
  fst (serve (fst (serve seeded t0 (DELETE_recipe 1))) t1 (DELETE_recipe 2))
  = fst (serve (fst (serve seeded t0 (DELETE_recipe 2))) t1 (DELETE_recipe 1)).
Proof. exact (deletes_commute seeded t0 t1 t0 t1 1 2 reachable_seeded). Defined.

(** X9: after startup and any run of requests, GET /recipes lists the
    stored recipes in strictly ascending order of id, and every id lies
    between 1 and 2 plus the number of requests served so far. *)
Theorem listing_ascending :
  forall (st0 : db) (trace : list (datetime * request)) (now : datetime),
    exists st rs,
      init_db st0 = Ok st
      /\ listed (snd (serve (run st trace) now GET_recipes)) = map dict_factory rs
      /\ StronglySorted Z.lt (ids rs)
      /\ Forall (fun r => 1 <= Recipe.id r <= 2 + Z.of_nat (List.length trace)) rs.
Proof.
  intros st0 trace now. exists seeded, (rows (run seeded trace)).
  assert (I : inv (run seeded trace))
    by apply inv_reachable, reachable_run, reachable_seeded.
  split; [apply init_db_seeded|]. split; [now apply listed_GET_recipes|].
  split; [apply (inv_sorted _ I)|].
  pose proof (sequence_bound seeded trace inv_seeded) as Hb.
  change (sqlite_sequence seeded) with 2 in Hb.
  eapply Forall_impl; [|apply (inv_ids _ I)]. cbv beta. intros r Hr. lia.
Qed.

(** X10: a recipe created and then deleted leaves the table as it was
    but uses up its id.  In any state reached after startup, after a
    successful POST and a DELETE of the id it returned, storage holds the
    rows it held before, and the id sequence stands at that id. *)
Theorem create_then_delete :
  forall (st : db) (n1 n2 : datetime) (body : json),
    reachable st ->
    status (snd (serve st n1 (POST_recipes body))) = 200 ->
    let st1 := fst (serve st n1 (POST_recipes body)) in
    let i := sqlite_sequence st + 1 in
    let st2 := fst (serve st1 n2 (DELETE_recipe i)) in
    created_id (POST_recipes body) (snd (serve st n1 (POST_recipes body))) = Some i
    /\ snd (serve st1 n2 (DELETE_recipe i))
       = mk_response 200 (JObj [("message", JStr "Recipe successfully removed!")])%string
    /\ rows st2 = rows st
    /\ sqlite_sequence st2 = i.
Proof.
  intros st n1 n2 body Hreach Hok st1 i st2.
  pose proof (inv_reachable _ Hreach) as I.
  assert (I1 : inv st1) by apply inv_serve, I.
  subst st2. rewrite (serve_DELETE _ _ _ I1).
  subst st1. rewrite (serve_POST _ _ _ I) in *.
  destruct (validate_body body) as [recipe|e] eqn:Hv.
  - destruct (bindable recipe && (sqlite_sequence st <? INT64_MAX)) eqn:Hc;
      [|discriminate Hok].
    cbv zeta in *. cbn [fst snd] in *.
    set (r := new_row (sqlite_sequence st + 1) n1 recipe) in *.
    assert (Hi : in_int64 i = true).
    { apply (stored_in_range _ _ I1). db_simpl. unfold ids. rewrite map_app.
      apply in_or_app. right. now left. }
    rewrite Hi. db_simpl.
    change i with (Recipe.id (new_row i n1 recipe)).
    rewrite find_last by apply (inv_below_next _ I).
    db_simpl. split; [reflexivity|]. split; [reflexivity|]. split; [|reflexivity].
    rewrite filter_app. cbn [filter Recipe.id new_row].
    rewrite Z.eqb_refl. cbn [negb]. rewrite app_nil_r.
    apply delete_absent.
    eapply Forall_impl; [|apply (inv_below_next _ I)]. simpl. lia.
  - destruct (validate_body_raises _ _ Hv) as [errors ->]. discriminate Hok.
Qed.

Lemma create_then_delete_witness :
  rows (fst (serve (fst (serve seeded t0 (POST_recipes payload))) t1 (DELETE_recipe 3)))
  = rows seeded
  /\ sqlite_sequence
       (fst (serve (fst (serve seeded t0 (POST_recipes payload))) t1 (DELETE_recipe 3)))
     = 3.
Proof.
  pose proof (create_then_delete seeded t0 t1 payload reachable_seeded eq_refl) as H.
  cbv zeta in H. destruct H as (_ & _ & H1 & H2). split; [exact H1|exact H2].
Defined.

(** X11: timestamps sort as text in the order of civil time.  For two
    clock readings with four-digit years, the strings [get_current_time]
    gives compare, byte by byte, as the readings compare by year, month,
    day, hour, minute and second; equal strings come from equal readings
    only. *)
Theorem timestamps_sort_chronologically :
  forall d1 d2 : datetime,
    valid_datetime d1 -> valid_datetime d2 ->
    String.compare (get_current_time d1) (get_current_time d2) = chronological d1 d2
    /\ (text_le (SqlText (get_current_time d1)) (SqlText (get_current_time d2)) = true
        <-> chronological d1 d2 <> Gt)
    /\ (get_current_time d1 = get_current_time d2 -> d1 = d2).
Proof.
  intros d1 d2 H1 H2.
  pose proof (compare_get_current_time d1 d2 H1 H2) as Hc.
  split; [exact Hc|split].
  - unfold text_le, String.leb. rewrite Hc.
    destruct (chronological d1 d2); split; congruence.
  - intros E. apply chronological_Eq. rewrite <- Hc, E. apply string_compare_refl.
Qed.

Lemma timestamps_sort_chronologically_witness :
  String.compare (get_current_time t1) (get_current_time t0) = Lt.
Proof.
  refine (proj1 (timestamps_sort_chronologically t1 t0 _ _));
    unfold valid_datetime; simpl; lia.
Defined.

(** X12: [dict_factory] builds, for a row at least as long as the cursor
    description, a dict with one member per column name, each name once,
    in which a name stands for the value of the last column of that name;
    when the names are distinct the members are the columns in order, and
    for [SELECT * FROM recipes] that is the dict of the row.  A row
    shorter than the description makes it fail. *)
Theorem dict_factory_cursor_spec :
  forall (description : list string) (row : list sqlval),
    ((List.length row < List.length description)%nat ->
       dict_factory_cursor description row = None)
    /\ ((List.length description <= List.length row)%nat ->
        exists d,
          dict_factory_cursor description row = Some (JObj d)
          /\ NoDup (map fst d)
          /\ (forall k,
                dict_get k d
                = dict_get k (combine description (map json_of_sqlval row)))
          /\ (NoDup description ->
              d = combine description (map json_of_sqlval row)))
    /\ (forall r, dict_factory_cursor recipes_columns (row_tuple r)
                  = Some (dict_factory r)).
Proof.
  intros description row. split; [|split].
  - intros Hlen. unfold dict_factory_cursor.
    now rewrite dict_factory_loop_short.
  - intros Hlen.
    destruct (dict_factory_loop_lookup description row [] Hlen (NoDup_nil _))
      as (d & Hrun & Hnd & Hget).
    exists d. unfold dict_factory_cursor. rewrite Hrun.
    split; [reflexivity|]. split; [exact Hnd|]. split.
    + intros k. rewrite Hget.
      destruct (dict_get k (combine description (map json_of_sqlval row))); reflexivity.
    + intros Hdistinct.
      rewrite (dict_factory_loop_distinct description row [] Hlen Hdistinct) in Hrun.
      now injection Hrun as <-.
  - intros r. reflexivity.
Qed.

Lemma dict_factory_cursor_spec_witness :
  dict_factory_cursor ["id"; "id"]%string [SqlInt 1; SqlInt 2] = Some (JObj [("id"%string, JInt 2)])
  /\ dict_factory_cursor ["id"; "title"]%string [SqlInt 1] = None.
Proof.
  split.
  - destruct (proj1 (proj2 (dict_factory_cursor_spec ["id"; "id"]%string
                              [SqlInt 1; SqlInt 2])))
      as (d & H & _); [simpl; lia|]. reflexivity.
  - apply (proj1 (dict_factory_cursor_spec ["id"; "title"]%string [SqlInt 1])).
    simpl. lia.
Defined.
